(** * scull: a shallow embedding of [scull/scull.c]

    The driver keeps, per device, a singly linked chain of [scull_qset]
    nodes; every node owns an optional array of [qset] slots and every slot
    an optional quantum of [quantum] bytes.  The chain is owned top-down and
    never shared, so it is a list here: the list's tail is the [next]
    pointer and [[]] is the [NULL] head.

    Integers are modelled on [Z] with the width of every C type written out
    (LP64 Linux: [int] is 32 bits; [long], [loff_t] and [ssize_t] are 64 bits
    signed; [size_t] and [unsigned long] are 64 bits unsigned).  The kernel
    is built with wrapping signed arithmetic, and a conversion to a narrower
    signed type reduces modulo the width.

    What C leaves undefined (a division by zero, an access outside an
    allocated object) has the outcome [Oops]. *)

From Stdlib Require Import ZArith Lia.
From Stdlib.Strings Require Import Byte String.
From stdpp Require Import base list.

Open Scope Z_scope.

(** ** Machine integers *)

Definition wrap_signed (w z : Z) : Z := (z + 2 ^ (w - 1)) mod 2 ^ w - 2 ^ (w - 1).

Definition to_int (z : Z) : Z := wrap_signed 32 z.
Definition to_long (z : Z) : Z := wrap_signed 64 z.
Definition to_uint (z : Z) : Z := z mod 2 ^ 32.
Definition to_ulong (z : Z) : Z := z mod 2 ^ 64.

Definition INT_MAX : Z := 2147483647.
Definition LLONG_MAX : Z := 9223372036854775807.
Definition ULONG_MAX : Z := 18446744073709551615.

(** Signed division and remainder of width [w]: truncation toward zero;
    a zero divisor and the quotient [MIN / -1] trap. *)
Definition c_div (w a b : Z) : option Z :=
  if (b =? 0) || ((a =? - 2 ^ (w - 1)) && (b =? -1)) then None
  else Some (Z.quot a b).

Definition c_rem (w a b : Z) : option Z :=
  if (b =? 0) || ((a =? - 2 ^ (w - 1)) && (b =? -1)) then None
  else Some (Z.rem a b).

(** Error numbers of the kernel ([errno-base.h], [errno.h]). *)
Definition ENOMEM : Z := 12.
Definition EFAULT : Z := 14.
Definition ERESTARTSYS : Z := 512.

(** [open] flags ([fcntl.h]). *)
Definition O_ACCMODE : Z := 3.
Definition O_WRONLY : Z := 1.

(** ** Outcomes *)

Inductive result (A : Type) : Type :=
| Done (a : A)
| Oops.

Arguments Done {A} a.
Arguments Oops {A}.

(** [mutex_lock_interruptible] either takes the lock (returns 0) or is
    interrupted by a signal (returns non-zero). *)
Inductive lock_outcome : Type := Acquired | Interrupted.

(** ** The allocator

    [kzalloc] returns zeroed memory or [NULL].  Whether the [k]-th request
    since boot succeeds is decided by the environment: [kz_ok k]. *)

Record kmem : Type := { kz_ok : nat -> bool; kz_calls : nat }.

Definition kzalloc (m : kmem) : bool * kmem :=
  (kz_ok m (kz_calls m), {| kz_ok := kz_ok m; kz_calls := S (kz_calls m) |}).

(** ** Module parameters (lines 15-25)

    [scull.h], which gives the defaults [SCULL_MAJOR], [SCULL_QUANTUM],
    [SCULL_QSET] and [SCULL_NUM_DEVS], is not part of the sources at hand;
    every parameter can be overridden when the module is loaded, so the
    five values are taken as they are at load time. *)

Record module_params : Type := {
  scull_major : Z;
  scull_minor : Z;
  scull_quantum : Z;
  scull_qset : Z;
  scull_num_devs : Z
}.

(** Modelled from the spec: the defaults of [scull.h] for the quantum size,
    the set size and the number of devices (4000, 1000, 4); the default
    major number 0 asks for a dynamic one. *)
Definition default_params : module_params :=
  {| scull_major := 0; scull_minor := 0;
     scull_quantum := 4000; scull_qset := 1000; scull_num_devs := 4 |}.

(** ** Data (lines 42-55) *)

Abbreviation quantum_buf := (list byte).

(** [struct scull_qset] (the name [scull_qset] is taken by the module
    parameter): [data] is [NULL] or an array of pointers, each [NULL] or a
    quantum; [next] is the tail of the chain. *)
Record scull_qset_node : Type := { qs_data : option (list (option quantum_buf)) }.

(** [struct scull_dev] without [access_key], [lock] and [cdev], which no
    function of the file reads. *)
Record scull_dev : Type := {
  dev_data : list scull_qset_node;
  dev_quantum : Z;
  dev_qset : Z;
  dev_size : Z
}.

Definition set_data (dev : scull_dev) (chain : list scull_qset_node) : scull_dev :=
  {| dev_data := chain; dev_quantum := dev_quantum dev;
     dev_qset := dev_qset dev; dev_size := dev_size dev |}.

Definition empty_qset : scull_qset_node := {| qs_data := None |}.

(** [arr[i]] for a C index: outside the array there is no defined value. *)
Definition slot {A : Type} (arr : list A) (i : Z) : option A :=
  if i <? 0 then None else arr !! Z.to_nat i.

(** ** scull_trim (lines 186-208) *)

(** The loop over the chain: every node's array, when present, is read at
    the indices [0 .. qset-1] to free the quanta. *)
Fixpoint trim_chain (qset : Z) (chain : list scull_qset_node) : result unit :=
  match chain with
  | [] => Done tt
  | dptr :: next =>
      match qs_data dptr with
      | Some arr =>
          if qset <=? Z.of_nat (length arr) then trim_chain qset next else Oops
      | None => trim_chain qset next
      end
  end.

Definition scull_trim (p : module_params) (dev : scull_dev) : result (Z * scull_dev) :=
  match trim_chain (dev_qset dev) (dev_data dev) with
  | Oops => Oops
  | Done _ =>
      Done (0, {| dev_data := []; dev_quantum := scull_quantum p;
                  dev_qset := scull_qset p; dev_size := 0 |})
  end.

(** ** scull_follow (lines 210-234)

    [dptr] is the index of the current node in the chain; [dptr->next] is
    [NULL] exactly when [dptr] is the last index.  The result is the index
    of the node found ([None] for [NULL]), the chain as the call leaves it
    and the allocator. *)
Fixpoint follow_loop (k : nat) (dptr : nat) (chain : list scull_qset_node) (m : kmem)
    : option nat * list scull_qset_node * kmem :=
  match k with
  | O => (Some dptr, chain, m)
  | S k' =>
      if (S dptr <? length chain)%nat then follow_loop k' (S dptr) chain m
      else
        let '(ok, m') := kzalloc m in
        if ok then follow_loop k' (S dptr) (chain ++ [empty_qset]) m'
        else (None, chain, m')
  end.

(** [while (n--)] on an [int]: [n] iterations, and for a negative [n] the
    counter wraps around, [2^32 + n] iterations. *)
Definition follow_steps (n : Z) : nat := Z.to_nat (to_uint n).

Definition scull_follow (chain : list scull_qset_node) (n : Z) (m : kmem)
    : option nat * list scull_qset_node * kmem :=
  match chain with
  | [] =>
      let '(ok, m') := kzalloc m in
      if ok then follow_loop (follow_steps n) 0 [empty_qset] m'
      else (None, [], m')
  | _ :: _ => follow_loop (follow_steps n) 0 chain m
  end.

(** ** scull_open and scull_release (lines 236-257) *)

Definition scull_open (p : module_params) (lk : lock_outcome) (f_flags : Z)
    (dev : scull_dev) : result (Z * scull_dev) :=
  if Z.land f_flags O_ACCMODE =? O_WRONLY then
    match lk with
    | Interrupted => Done (- ERESTARTSYS, dev)
    | Acquired =>
        match scull_trim p dev with
        | Oops => Oops
        | Done (_, dev') => Done (0, dev')
        end
    end
  else Done (0, dev).

Definition scull_release (dev : scull_dev) : Z * scull_dev := (0, dev).

(** ** Address translation, as inlined in scull_read (lines 277-284) and in
    scull_write (lines 320-327) *)

Definition read_translate (quantum qset f_pos : Z) : option (Z * Z * Z) :=
  let itemsize := to_int (quantum * qset) in
  match c_div 64 (to_long f_pos) itemsize, c_rem 64 (to_long f_pos) itemsize with
  | Some item, Some rest =>
      let item := to_int item in
      let rest := to_int rest in
      match c_div 32 rest quantum, c_rem 32 rest quantum with
      | Some s_pos, Some q_pos => Some (item, s_pos, q_pos)
      | _, _ => None
      end
  | _, _ => None
  end.

Definition write_translate (quantum qset f_pos : Z) : option (Z * Z * Z) :=
  let itemsize := to_int (quantum * qset) in
  match c_div 64 (to_long f_pos) itemsize, c_rem 64 (to_long f_pos) itemsize with
  | Some item, Some rest =>
      let item := to_int item in
      let rest := to_int rest in
      match c_div 32 rest quantum, c_rem 32 rest quantum with
      | Some s_pos, Some q_pos => Some (item, s_pos, q_pos)
      | _, _ => None
      end
  | _, _ => None
  end.

(** ** scull_read (lines 259-307)

    [room] is the number of bytes of the user buffer [buf] that can be
    written: [copy_to_user] of [n] bytes succeeds when [n <= room], and
    otherwise stores what fits and reports the rest.  The outcome records
    the return value, the bytes stored to [buf], [*f_pos], the device and
    the allocator. *)

Record read_out : Type := {
  r_ret : Z;
  r_user : list byte;
  r_fpos : Z;
  r_dev : scull_dev;
  r_mem : kmem
}.

Definition scull_read (lk : lock_outcome) (dev : scull_dev) (m : kmem)
    (room count f_pos : Z) : result read_out :=
  let out retval user pos d m' :=
    Done {| r_ret := retval; r_user := user; r_fpos := pos; r_dev := d; r_mem := m' |} in
  match lk with
  | Interrupted => out (- ERESTARTSYS) [] f_pos dev m
  | Acquired =>
  if dev_size dev <? to_ulong f_pos then out 0 [] f_pos dev m else
  let count :=
    if dev_size dev <? to_ulong (f_pos + count)
    then to_ulong (dev_size dev - f_pos) else count in
  let quantum := dev_quantum dev in
  let qset := dev_qset dev in
  match read_translate quantum qset f_pos with
  | None => Oops
  | Some (item, s_pos, q_pos) =>
  let '(dptr, chain, m1) := scull_follow (dev_data dev) item m in
  let dev1 := set_data dev chain in
  match dptr with
  | None => out 0 [] f_pos dev1 m1
  | Some i =>
  match chain !! i with
  | None => Oops
  | Some node =>
  match qs_data node with
  | None => out 0 [] f_pos dev1 m1
  | Some arr =>
  match slot arr s_pos with
  | None => Oops
  | Some None => out 0 [] f_pos dev1 m1
  | Some (Some q) =>
  let count :=
    if to_ulong (to_int (quantum - q_pos)) <? count
    then to_ulong (to_int (quantum - q_pos)) else count in
  if (q_pos <? 0) || (Z.of_nat (length q) <? q_pos + count) then Oops else
  let src := take (Z.to_nat count) (drop (Z.to_nat q_pos) q) in
  if room <? count then out (- EFAULT) (take (Z.to_nat room) src) f_pos dev1 m1
  else out (to_long count) src (to_long (f_pos + count)) dev1 m1
  end end end end end end.

(** ** scull_write (lines 309-367)

    [ubuf] holds the bytes of the user buffer [buf] that can be read:
    [copy_from_user] of [n] bytes succeeds when [n <= length ubuf]; when it
    faults it has stored the readable bytes and zero-filled the rest of the
    destination, and reports the bytes it could not read.

    The function is given in four pieces, each the tail of the one after
    it: every [goto out] ends the call with the device as it is then. *)

Record write_out : Type := {
  w_ret : Z;
  w_fpos : Z;
  w_dev : scull_dev;
  w_mem : kmem
}.

(** [memcpy] of [bs] to offset [off] of the buffer [q]. *)
Definition splice (q : quantum_buf) (off : nat) (bs : list byte) : quantum_buf :=
  take off q ++ bs ++ drop (off + length bs)%nat q.

(** [dptr->data[s] = q] for the node of index [i], whose array is [arr]. *)
Definition store_quantum (chain : list scull_qset_node) (i : nat)
    (arr : list (option quantum_buf)) (s : nat) (q : quantum_buf)
    : list scull_qset_node :=
  <[i := {| qs_data := Some (<[s := Some q]> arr) |}]> chain.

(** Lines 348-362: the transfer into the quantum [q] of slot [s_pos] of the
    node [i], and the update of [*f_pos] and [size]. *)
Definition write_copy (dev : scull_dev) (chain : list scull_qset_node) (i : nat)
    (arr : list (option quantum_buf)) (s_pos q_pos : Z) (q : quantum_buf)
    (m : kmem) (ubuf : list byte) (count f_pos : Z) : result write_out :=
  let quantum := dev_quantum dev in
  let qset := dev_qset dev in
  let count :=
    if to_ulong (to_int (quantum - q_pos)) <? count
    then to_ulong (to_int (quantum - q_pos)) else count in
  if (q_pos <? 0) || (Z.of_nat (length q) <? q_pos + count) then Oops else
  let s := Z.to_nat s_pos in
  let avail := Z.of_nat (length ubuf) in
  if avail <? count then
    let q' := splice q (Z.to_nat q_pos)
                (ubuf ++ replicate (Z.to_nat (count - avail)) x00) in
    Done {| w_ret := - EFAULT; w_fpos := f_pos;
            w_dev := set_data dev (store_quantum chain i arr s q');
            w_mem := m |}
  else
    let q' := splice q (Z.to_nat q_pos) (take (Z.to_nat count) ubuf) in
    let f_pos' := to_long (f_pos + count) in
    let size' :=
      if dev_size dev <? to_ulong f_pos' then to_ulong f_pos' else dev_size dev in
    Done {| w_ret := to_int count; w_fpos := f_pos';
            w_dev := {| dev_data := store_quantum chain i arr s q';
                        dev_quantum := quantum; dev_qset := qset;
                        dev_size := size' |};
            w_mem := m |}.

(** Lines 341-347: the quantum of the slot is allocated when it is missing. *)
Definition write_slot (dev : scull_dev) (chain : list scull_qset_node) (i : nat)
    (arr : list (option quantum_buf)) (s_pos q_pos : Z)
    (m : kmem) (ubuf : list byte) (count f_pos : Z) : result write_out :=
  match slot arr s_pos with
  | None => Oops
  | Some (Some q) => write_copy dev chain i arr s_pos q_pos q m ubuf count f_pos
  | Some None =>
      let '(ok, m') := kzalloc m in
      if ok then
        write_copy dev chain i arr s_pos q_pos
          (replicate (Z.to_nat (to_ulong (dev_quantum dev))) x00) m' ubuf count f_pos
      else
        Done {| w_ret := - ENOMEM; w_fpos := f_pos;
                w_dev := set_data dev (<[i := {| qs_data := Some arr |}]> chain);
                w_mem := m' |}
  end.

(** Lines 334-340: the slot array of the node is allocated when it is
    missing, [qset] pointers. *)
Definition write_array (dev : scull_dev) (chain : list scull_qset_node) (i : nat)
    (node : scull_qset_node) (s_pos q_pos : Z)
    (m : kmem) (ubuf : list byte) (count f_pos : Z) : result write_out :=
  match qs_data node with
  | Some arr => write_slot dev chain i arr s_pos q_pos m ubuf count f_pos
  | None =>
      let '(ok, m') := kzalloc m in
      if ok then
        write_slot dev chain i
          (replicate (Z.to_nat (to_ulong (dev_qset dev * 8) / 8)) None)
          s_pos q_pos m' ubuf count f_pos
      else
        Done {| w_ret := - ENOMEM; w_fpos := f_pos;
                w_dev := set_data dev chain; w_mem := m' |}
  end.

(** Lines 309-333: the lock, the translation and the node; [retval] is
    still 0 when [scull_follow] returns [NULL]. *)
Definition scull_write (lk : lock_outcome) (dev : scull_dev) (m : kmem)
    (ubuf : list byte) (count f_pos : Z) : result write_out :=
  match lk with
  | Interrupted =>
      Done {| w_ret := - ERESTARTSYS; w_fpos := f_pos; w_dev := dev; w_mem := m |}
  | Acquired =>
      match write_translate (dev_quantum dev) (dev_qset dev) f_pos with
      | None => Oops
      | Some (item, s_pos, q_pos) =>
          let '(dptr, chain, m1) := scull_follow (dev_data dev) item m in
          match dptr with
          | None =>
              Done {| w_ret := 0; w_fpos := f_pos;
                      w_dev := set_data dev chain; w_mem := m1 |}
          | Some i =>
              match chain !! i with
              | None => Oops
              | Some node =>
                  write_array dev chain i node s_pos q_pos m1 ubuf count f_pos
              end
          end
      end
  end.

(** ** Module load and unload (lines 369-449)

    The kernel services the driver calls are taken from the environment:
    the result of reserving the device numbers, the number
    [alloc_chrdev_region] picks, and the result of each [cdev_add]. *)

Record init_env : Type := {
  region_err : Z;
  dyn_major : Z;
  dyn_minor : Z;
  cdev_add_err : nat -> Z;
  init_mem : kmem
}.

(** The driver's globals once loaded: the parameters, the reserved range
    of device numbers (major, first minor, count), the table
    [scull_devices] ([None] for [NULL]) and the minors whose [cdev] is live. *)
Record driver : Type := {
  drv_params : module_params;
  drv_region : option (Z * Z * Z);
  drv_devices : option (list scull_dev);
  drv_cdevs : list Z
}.

(** A device as [kzalloc] leaves it. *)
Definition zeroed_dev : scull_dev :=
  {| dev_data := []; dev_quantum := 0; dev_qset := 0; dev_size := 0 |}.

(** [cdev_del] on the device whose minor is [minor] (line 376): that
    [cdev] is live no more.  On a [cdev] that was never added the call
    leaves the live ones as they are. *)
Definition cdev_del (minor : Z) (cdevs : list Z) : list Z :=
  List.filter (fun c => negb (c =? minor)) cdevs.

(** The loop of scull_cleanup (lines 374-377): [k] iterations left, at
    index [i], each one trimming the device and deleting its [cdev];
    [scull_devices + i] outside the table is undefined.  The result is the
    [cdev]s still live. *)
Fixpoint cleanup_loop (p : module_params) (k i : nat) (tbl : list scull_dev)
    (cdevs : list Z) : result (list Z) :=
  match k with
  | O => Done cdevs
  | S k' =>
      match tbl !! i with
      | None => Oops
      | Some dev =>
          match scull_trim p dev with
          | Oops => Oops
          | Done _ =>
              cleanup_loop p k' (S i) tbl
                (cdev_del (scull_minor p + Z.of_nat i) cdevs)
          end
      end
  end.

(** Lines 369-383: the loop runs over [scull_num_devs] entries when there
    is a table, which is then freed; the device numbers are released in
    either case.  A [cdev] the loop did not reach stays live. *)
Definition scull_cleanup (drv : driver) : result driver :=
  let p := drv_params drv in
  match drv_devices drv with
  | None =>
      Done {| drv_params := p; drv_region := None; drv_devices := None;
              drv_cdevs := drv_cdevs drv |}
  | Some tbl =>
      match cleanup_loop p (Z.to_nat (scull_num_devs p)) 0 tbl (drv_cdevs drv) with
      | Oops => Oops
      | Done cdevs =>
          Done {| drv_params := p; drv_region := None; drv_devices := None;
                  drv_cdevs := cdevs |}
      end
  end.

(** The loop of scull_init (lines 425-434): sets up the device of index [i]
    and the [k - 1] after it; returns the error of the first [cdev_add] that
    fails, the table and the minors added. *)
Fixpoint init_loop (p : module_params) (e : init_env) (k i : nat)
    (tbl : list scull_dev) (cdevs : list Z) : Z * list scull_dev * list Z :=
  match k with
  | O => (0, tbl, cdevs)
  | S k' =>
      let dev :=
        {| dev_data := []; dev_quantum := scull_quantum p;
           dev_qset := scull_qset p; dev_size := 0 |} in
      let tbl' := <[i := dev]> tbl in
      let err := cdev_add_err e i in
      if err =? 0
      then init_loop p e k' (S i) tbl' (cdevs ++ [scull_minor p + Z.of_nat i])
      else (err, tbl', cdevs)
  end.

Definition scull_init (p : module_params) (e : init_env) : result (Z * driver) :=
  let p1 :=
    if scull_major p =? 0
    then {| scull_major := dyn_major e; scull_minor := dyn_minor e;
            scull_quantum := scull_quantum p; scull_qset := scull_qset p;
            scull_num_devs := scull_num_devs p |}
    else p in
  let err := region_err e in
  if negb (err =? 0) then
    Done (err, {| drv_params := p1; drv_region := None;
                  drv_devices := None; drv_cdevs := [] |})
  else
    let region := Some (scull_major p1, scull_minor p1, 4) in
    let '(ok, _) := kzalloc (init_mem e) in
    if negb ok then
      Done (- ENOMEM, {| drv_params := p1; drv_region := None;
                         drv_devices := None; drv_cdevs := [] |})
    else
      let '(err, tbl, cdevs) := init_loop p1 e 4 0 (replicate 4 zeroed_dev) [] in
      let drv := {| drv_params := p1; drv_region := region;
                    drv_devices := Some tbl; drv_cdevs := cdevs |} in
      if err =? 0 then Done (0, drv)
      else
        match scull_cleanup drv with
        | Oops => Oops
        | Done drv' => Done (err, drv')
        end.

(** ** The /proc listing (lines 79-135, built under [SCULL_DEBUG])

    The [seq_file] iterator walks the device table: [v] is the pointer
    [scull_devices + *pos], here the index.  What scull_proc_seqshow prints
    is kept as lines of printed values; the [%p] pointers are opaque, so a
    node is named by its place in the chain and its [data] pointer by
    whether it is [NULL]. *)

Definition scull_proc_seqstart (p : module_params) (pos : Z) : option Z :=
  if scull_num_devs p <=? pos then None else Some pos.

Definition scull_proc_seqnext (p : module_params) (pos : Z) : option Z * Z :=
  let pos' := to_long (pos + 1) in
  (if scull_num_devs p <=? pos' then None else Some pos', pos').

Inductive proc_line : Type :=
| DeviceLine (index num_items qset quantum size : Z)
| ItemLine (item : nat) (has_data : bool)
| QuantumLine (i : Z).

(** Lines 123-128: [for (i = 0; i < dev->qset; ++i) if (qs->data[i]) ...],
    with [k] iterations left at index [i]. *)
Fixpoint show_quanta (data : option (list (option quantum_buf))) (k : nat) (i : Z)
    : result (list proc_line) :=
  match k with
  | O => Done []
  | S k' =>
      match data with
      | None => Oops
      | Some arr =>
          match slot arr i with
          | None => Oops
          | Some cell =>
              match show_quanta data k' (i + 1) with
              | Oops => Oops
              | Done rest =>
                  Done (match cell with
                        | Some _ => QuantumLine i :: rest
                        | None => rest
                        end)
              end
          end
      end
  end.

(** Lines 120-130: one line per node, and the quanta of the last node. *)
Fixpoint show_items (qset : Z) (item : nat) (chain : list scull_qset_node)
    : result (list proc_line) :=
  match chain with
  | [] => Done []
  | qs :: next =>
      let line :=
        ItemLine item (match qs_data qs with Some _ => true | None => false end) in
      let last :=
        match next with
        | [] => show_quanta (qs_data qs) (Z.to_nat qset) 0
        | _ :: _ => Done []
        end in
      match last with
      | Oops => Oops
      | Done quanta =>
          match show_items qset (S item) next with
          | Oops => Oops
          | Done rest => Done (line :: quanta ++ rest)
          end
      end
  end.

Definition scull_proc_seqshow (lk : lock_outcome) (index : Z) (dev : scull_dev)
    : result (Z * list proc_line) :=
  match lk with
  | Interrupted => Done (- ERESTARTSYS, [])
  | Acquired =>
      let num_items := Z.of_nat (length (dev_data dev)) in
      let head :=
        DeviceLine (to_int index) (to_long num_items) (dev_qset dev)
          (dev_quantum dev) (to_long (dev_size dev)) in
      match show_items (dev_qset dev) 0 (dev_data dev) with
      | Oops => Oops
      | Done lines => Done (0, head :: lines)
      end
  end.

(** * Specification vocabulary *)

(** ** The allocator *)

(** [m'] is [m] after some more requests. *)
Definition mem_le (m m' : kmem) : Prop :=
  kz_ok m' = kz_ok m /\ (kz_calls m <= kz_calls m')%nat.

(** No request from now on is refused. *)
Definition mem_good (m : kmem) : Prop :=
  forall k, (kz_calls m <= k)%nat -> kz_ok m k = true.

(** An allocator that never refuses, and one that always does. *)
Definition mem_always : kmem := {| kz_ok := fun _ => true; kz_calls := 0 |}.
Definition mem_never : kmem := {| kz_ok := fun _ => false; kz_calls := 0 |}.

(** An allocator that grants the first [n] requests and refuses the rest. *)
Definition mem_first (n : nat) : kmem :=
  {| kz_ok := fun k => (k <? n)%nat; kz_calls := 0 |}.

(** ** Sizes a device can work with

    [quantum], [qset] and their product [itemsize] are [int]s; the
    translation divides by [itemsize] and by [quantum]. *)

Definition sizes_okb (quantum qset : Z) : bool :=
  (0 <? quantum) && (0 <? qset) && (quantum * qset <=? INT_MAX).

(** ** Well-formed devices

    Every slot array has [qset] entries and every quantum [quantum] bytes,
    for the sizes the device currently has; the sizes can be worked with and
    [size] is an [unsigned long]. *)

Definition cell_okb (quantum : Z) (c : option quantum_buf) : bool :=
  match c with
  | None => true
  | Some q => Z.of_nat (length q) =? quantum
  end.

Definition node_okb (quantum qset : Z) (n : scull_qset_node) : bool :=
  match qs_data n with
  | None => true
  | Some arr => (Z.of_nat (length arr) =? qset) && forallb (cell_okb quantum) arr
  end.

Definition wf_devb (d : scull_dev) : bool :=
  sizes_okb (dev_quantum d) (dev_qset d)
  && ((0 <=? dev_size d) && (dev_size d <=? ULONG_MAX))
  && forallb (node_okb (dev_quantum d) (dev_qset d)) (dev_data d).

Definition wf_dev (d : scull_dev) : Prop := wf_devb d = true.

Definition chain_ok (quantum qset : Z) (chain : list scull_qset_node) : Prop :=
  Forall (fun n => node_okb quantum qset n = true) chain.

(** ** Calls the VFS makes

    [vfs_read] and [vfs_write] refuse a negative [*f_pos], a [count] that is
    negative as an [ssize_t], and a transfer that would run past the largest
    [loff_t], before the driver is entered. *)
Definition call_ok (pos count : Z) : Prop :=
  0 <= pos /\ 0 <= count /\ pos + count <= LLONG_MAX.

(** ** The stored quanta

    [get_quantum chain n s] is the quantum in slot [s] of the node of index
    [n], when the node, its array and the quantum are all there. *)

Definition get_quantum (chain : list scull_qset_node) (n s : nat)
    : option quantum_buf :=
  match chain !! n with
  | Some node =>
      match qs_data node with
      | Some arr =>
          match arr !! s with
          | Some (Some q) => Some q
          | _ => None
          end
      | None => None
      end
  | None => None
  end.

(** ** Where an offset lands

    The node, the slot and the offset in the quantum that read and write
    compute for [pos] on a well-formed device, and the number of bytes one
    call moves at most. *)

Definition seg_of (d : scull_dev) (pos : Z) : nat :=
  follow_steps (to_int (pos / (dev_quantum d * dev_qset d))).

Definition slot_of (d : scull_dev) (pos : Z) : nat :=
  Z.to_nat ((pos mod (dev_quantum d * dev_qset d)) / dev_quantum d).

Definition off_of (d : scull_dev) (pos : Z) : Z :=
  (pos mod (dev_quantum d * dev_qset d)) mod dev_quantum d.

Definition xfer (d : scull_dev) (pos count : Z) : Z :=
  Z.min count (dev_quantum d - off_of d pos).

(** Offsets whose node index fits the [int] it is computed in. *)
Definition reachable_pos (d : scull_dev) (pos : Z) : Prop :=
  pos / (dev_quantum d * dev_qset d) <= INT_MAX.

(** ** What a write does

    What a write at [pos] of at most [c] bytes leaves alone: the sizes,
    every other quantum, and in the quantum written the bytes outside
    [off_of d pos .. off_of d pos + c - 1]. *)
Definition write_frame (d d' : scull_dev) (pos c : Z) : Prop :=
  dev_quantum d' = dev_quantum d /\ dev_qset d' = dev_qset d /\
  (forall n s, (n, s) <> (seg_of d pos, slot_of d pos) ->
     get_quantum (dev_data d') n s = get_quantum (dev_data d) n s) /\
  (forall q, get_quantum (dev_data d) (seg_of d pos) (slot_of d pos) = Some q ->
     exists q', get_quantum (dev_data d') (seg_of d pos) (slot_of d pos) = Some q' /\
       forall j : nat, ~ (off_of d pos <= Z.of_nat j < off_of d pos + c) ->
         q' !! j = q !! j).

(** A write that moved nothing: the lock was not taken, an allocation was
    refused, or the user buffer could not be read. *)
Definition write_failed (lk : lock_outcome) (d : scull_dev) (m : kmem)
    (ubuf : list byte) (count pos : Z) (r : write_out) : Prop :=
  w_ret r <= 0 /\ w_fpos r = pos /\ dev_size (w_dev r) = dev_size d /\
  (lk = Interrupted \/ ~ mem_good m \/ Z.of_nat (length ubuf) < xfer d pos count).

(** A write that went through: [xfer d pos count] bytes of [ubuf] are in
    the quantum, the cursor has advanced by as much and [size] covers it. *)
Definition write_done (d : scull_dev) (ubuf : list byte) (count pos : Z)
    (r : write_out) : Prop :=
  w_ret r = xfer d pos count /\ w_fpos r = pos + xfer d pos count /\
  dev_size (w_dev r) = Z.max (dev_size d) (pos + xfer d pos count) /\
  exists q', get_quantum (dev_data (w_dev r)) (seg_of d pos) (slot_of d pos) = Some q' /\
    forall k : nat, Z.of_nat k < xfer d pos count ->
      q' !! (Z.to_nat (off_of d pos) + k)%nat = ubuf !! k.

Definition write_post (lk : lock_outcome) (d : scull_dev) (m : kmem)
    (ubuf : list byte) (count pos : Z) (r : write_out) : Prop :=
  wf_dev (w_dev r) /\ mem_le m (w_mem r) /\
  write_frame d (w_dev r) pos (xfer d pos count) /\
  (write_failed lk d m ubuf count pos r \/ write_done d ubuf count pos r).

(** ** What a read does

    The number of bytes a read at [pos] moves when the quantum is there:
    what is asked for, capped by what lies below [size] and by the end of
    the quantum. *)
Definition read_avail (d : scull_dev) (pos count : Z) : Z :=
  Z.min (Z.min count (dev_size d - pos)) (dev_quantum d - off_of d pos).

(** The outcome [r] of a read with the lock held: the device only gains
    empty nodes at the end of its chain, and what is returned is decided by
    [size] and by the quantum [pos] lands in. *)
Definition read_post (d : scull_dev) (m : kmem) (room count pos : Z)
    (r : read_out) : Prop :=
  (exists j, r_dev r = set_data d (dev_data d ++ replicate j empty_qset)) /\
  mem_le m (r_mem r) /\
  if dev_size d <? pos then
    r_ret r = 0 /\ r_user r = [] /\ r_fpos r = pos /\ r_dev r = d
  else
    (mem_good m ->
     length (dev_data (r_dev r))
       = (length (dev_data d) `max` S (seg_of d pos))%nat) /\
    match get_quantum (dev_data d) (seg_of d pos) (slot_of d pos) with
    | None => r_ret r = 0 /\ r_user r = [] /\ r_fpos r = pos
    | Some q =>
        let c := read_avail d pos count in
        let src := take (Z.to_nat c) (drop (Z.to_nat (off_of d pos)) q) in
        if room <? c then
          r_ret r = - EFAULT /\ r_user r = take (Z.to_nat room) src /\ r_fpos r = pos
        else
          r_ret r = c /\ r_user r = src /\ r_fpos r = pos + c
    end.

(** ** Operations on one device

    A device as [scull_init] sets it up, the calls a process can make on
    it, and the states these calls lead to. *)

Definition fresh_dev (p : module_params) : scull_dev :=
  {| dev_data := []; dev_quantum := scull_quantum p;
     dev_qset := scull_qset p; dev_size := 0 |}.

Inductive op : Type :=
| OpOpen (lk : lock_outcome) (f_flags : Z)
| OpRelease
| OpRead (lk : lock_outcome) (room count f_pos : Z)
| OpWrite (lk : lock_outcome) (ubuf : list byte) (count f_pos : Z).

Definition op_ok (o : op) : Prop :=
  match o with
  | OpRead _ _ count f_pos | OpWrite _ _ count f_pos => call_ok f_pos count
  | _ => True
  end.

(** The calls that trim the device: an [open] for writing only that gets
    the lock. *)
Definition trims (o : op) : bool :=
  match o with
  | OpOpen Acquired f_flags => Z.land f_flags O_ACCMODE =? O_WRONLY
  | _ => false
  end.

Definition step (p : module_params) (o : op) (d : scull_dev) (m : kmem)
    : result (Z * scull_dev * kmem) :=
  match o with
  | OpOpen lk f_flags =>
      match scull_open p lk f_flags d with
      | Oops => Oops
      | Done (ret, d') => Done (ret, d', m)
      end
  | OpRelease => let '(ret, d') := scull_release d in Done (ret, d', m)
  | OpRead lk room count f_pos =>
      match scull_read lk d m room count f_pos with
      | Oops => Oops
      | Done r => Done (r_ret r, r_dev r, r_mem r)
      end
  | OpWrite lk ubuf count f_pos =>
      match scull_write lk d m ubuf count f_pos with
      | Oops => Oops
      | Done r => Done (w_ret r, w_dev r, w_mem r)
      end
  end.

Inductive reachable (p : module_params) : scull_dev -> Prop :=
| reach_init : reachable p (fresh_dev p)
| reach_step (o : op) (d : scull_dev) (m : kmem) (ret : Z) (d' : scull_dev) (m' : kmem) :
    reachable p d -> op_ok o -> step p o d m = Done (ret, d', m') ->
    reachable p d'.

(** ** Sequences of writes *)

Definition len (b : list byte) : Z := Z.of_nat (length b).

Record wcall : Type := {
  wc_lock : lock_outcome;
  wc_buf : list byte;
  wc_count : Z;
  wc_pos : Z
}.

(** The writes [ws] one after the other; the return values, the device
    and the allocator at the end. *)
Fixpoint run_writes (d : scull_dev) (m : kmem) (ws : list wcall)
    : result (list Z * scull_dev * kmem) :=
  match ws with
  | [] => Done ([], d, m)
  | w :: ws' =>
      match scull_write (wc_lock w) d m (wc_buf w) (wc_count w) (wc_pos w) with
      | Oops => Oops
      | Done r =>
          match run_writes (w_dev r) (w_mem r) ws' with
          | Oops => Oops
          | Done (rets, d', m') => Done (w_ret r :: rets, d', m')
          end
      end
  end.

(** The largest [offset + bytes written] over the writes [ws] that
    returned [rets]. *)
Definition high_water (ws : list wcall) (rets : list Z) : Z :=
  foldr Z.max 0 (zip_with (fun w ret => wc_pos w + ret) ws rets).

(** A write that nothing stops: the lock is taken and the user buffer
    holds the [count] bytes. *)
Definition wcall_clean (w : wcall) : Prop :=
  wc_lock w = Acquired /\ call_ok (wc_pos w) (wc_count w) /\
  wc_count w <= len (wc_buf w).

(** A write that stays clear of the bytes [pos .. pos + n - 1]. *)
Definition wcall_apart (d : scull_dev) (pos n : Z) (w : wcall) : Prop :=
  call_ok (wc_pos w) (wc_count w) /\ reachable_pos d (wc_pos w) /\
  (wc_pos w + wc_count w <= pos \/ pos + n <= wc_pos w).

(** The bytes [bs] written at [pos] of [d] are still in place in [d'],
    and below its [size]. *)
Definition kept (d : scull_dev) (pos : Z) (bs : list byte) (d' : scull_dev) : Prop :=
  wf_dev d' /\
  dev_quantum d' = dev_quantum d /\ dev_qset d' = dev_qset d /\
  pos + len bs <= dev_size d' /\
  exists q, get_quantum (dev_data d') (seg_of d pos) (slot_of d pos) = Some q /\
    forall k : nat, (k < length bs)%nat ->
      q !! (Z.to_nat (off_of d pos) + k)%nat = bs !! k.

(** ** The worked example: [quantum = 4], [qset = 2] *)

Definition ex_params : module_params :=
  {| scull_major := 0; scull_minor := 0;
     scull_quantum := 4; scull_qset := 2; scull_num_devs := 4 |}.

Definition bytes_of (s : string) : list byte := list_byte_of_string s.

Definition ex_write (s : string) (pos : Z) : wcall :=
  {| wc_lock := Acquired; wc_buf := bytes_of s;
     wc_count := len (bytes_of s); wc_pos := pos |}.

(** The device once "ABCDEFGH" is stored at offset 0. *)
Definition ex_dev8 : scull_dev :=
  {| dev_data :=
       [ {| qs_data := Some [Some (bytes_of "ABCD"); Some (bytes_of "EFGH")] |} ];
     dev_quantum := 4; dev_qset := 2; dev_size := 8 |}.

(** The device once "Z" is stored at offset 10 as well: the quantum that
    holds offsets 8 to 11 is allocated, zero-filled. *)
Definition ex_dev11 : scull_dev :=
  {| dev_data :=
       [ {| qs_data := Some [Some (bytes_of "ABCD"); Some (bytes_of "EFGH")] |};
         {| qs_data := Some [Some [x00; x00; "Z"%byte; x00]; None] |} ];
     dev_quantum := 4; dev_qset := 2; dev_size := 11 |}.

(** The same when the caller did not write "EFGH" after the first call
    stored "ABCD". *)
Definition ex_dev11_short : scull_dev :=
  {| dev_data :=
       [ {| qs_data := Some [Some (bytes_of "ABCD"); None] |};
         {| qs_data := Some [Some [x00; x00; "Z"%byte; x00]; None] |} ];
     dev_quantum := 4; dev_qset := 2; dev_size := 11 |}.

(** ** Module load *)

(** The kernel services at load time when nothing fails. *)
Definition init_env_ok : init_env :=
  {| region_err := 0; dyn_major := 250; dyn_minor := 0;
     cdev_add_err := fun _ => 0; init_mem := mem_always |}.

Definition params_with_devs (n : Z) : module_params :=
  {| scull_major := scull_major default_params;
     scull_minor := scull_minor default_params;
     scull_quantum := scull_quantum default_params;
     scull_qset := scull_qset default_params;
     scull_num_devs := n |}.

(** ** Capacity

    The chain has room for [size]: [size] is no more than the number of
    nodes times [quantum * qset]. *)
Definition capacity (d : scull_dev) : Prop :=
  dev_size d <= Z.of_nat (length (dev_data d)) * (dev_quantum d * dev_qset d).

(** The calls whose offset, when they write, has a node index that fits
    an [int]. *)
Definition op_near (d : scull_dev) (o : op) : Prop :=
  match o with
  | OpWrite _ _ _ f_pos => reachable_pos d f_pos
  | _ => True
  end.

(** ** A caller that writes a whole buffer

    What the callers of [write] do with a short count: call again with the
    rest of the buffer, at the cursor the call left, until nothing is left
    or a call moves nothing.  [fuel] bounds the number of calls; the result
    is the number of bytes written, the device and the allocator. *)
Fixpoint write_all (fuel : nat) (d : scull_dev) (m : kmem) (b : list byte) (pos : Z)
    : result (Z * scull_dev * kmem) :=
  match fuel with
  | O => Done (0, d, m)
  | S fuel' =>
      match b with
      | [] => Done (0, d, m)
      | _ :: _ =>
          match scull_write Acquired d m b (len b) pos with
          | Oops => Oops
          | Done r =>
              if w_ret r <=? 0 then Done (0, w_dev r, w_mem r)
              else
                match write_all fuel' (w_dev r) (w_mem r)
                        (drop (Z.to_nat (w_ret r)) b) (w_fpos r) with
                | Oops => Oops
                | Done (n, d', m') => Done (w_ret r + n, d', m')
                end
          end
      end
  end.

(** ** Walking the /proc iterator

    What [seq_file] does with the iterator: [start] at position 0, then
    [next] until it returns [NULL]; the indexes visited, at most [fuel]. *)
Fixpoint seq_visit (p : module_params) (fuel : nat) (v : option Z) (pos : Z)
    : list Z :=
  match fuel, v with
  | S fuel', Some i =>
      let '(v', pos') := scull_proc_seqnext p pos in
      i :: seq_visit p fuel' v' pos'
  | _, _ => []
  end.

(** * Verification *)

(** ** Machine integers *)

Lemma to_int_small z : - 2147483648 <= z <= INT_MAX -> to_int z = z.
Proof.
  unfold to_int, wrap_signed, INT_MAX. intros H.
  change (2 ^ (32 - 1)) with 2147483648. change (2 ^ 32) with 4294967296.
  rewrite Z.mod_small by lia. lia.
Qed.

Lemma to_long_small z : - 9223372036854775808 <= z <= LLONG_MAX -> to_long z = z.
Proof.
  unfold to_long, wrap_signed, LLONG_MAX. intros H.
  change (2 ^ (64 - 1)) with 9223372036854775808.
  change (2 ^ 64) with 18446744073709551616.
  rewrite Z.mod_small by lia. lia.
Qed.

Lemma to_ulong_small z : 0 <= z <= ULONG_MAX -> to_ulong z = z.
Proof.
  unfold to_ulong, ULONG_MAX. intros H.
  change (2 ^ 64) with 18446744073709551616. apply Z.mod_small. lia.
Qed.

Lemma to_uint_small z : 0 <= z <= 4294967295 -> to_uint z = z.
Proof.
  unfold to_uint. intros H.
  change (2 ^ 32) with 4294967296. apply Z.mod_small. lia.
Qed.

Lemma c_div_pos w a b : 0 <= a -> 0 < b -> c_div w a b = Some (a / b).
Proof.
  intros Ha Hb. unfold c_div.
  destruct (Z.eqb_spec b 0); [lia |].
  destruct (Z.eqb_spec b (-1)); [lia |].
  rewrite andb_false_r. simpl. by rewrite Z.quot_div_nonneg.
Qed.

Lemma c_rem_pos w a b : 0 <= a -> 0 < b -> c_rem w a b = Some (a mod b).
Proof.
  intros Ha Hb. unfold c_rem.
  destruct (Z.eqb_spec b 0); [lia |].
  destruct (Z.eqb_spec b (-1)); [lia |].
  rewrite andb_false_r. simpl. by rewrite Z.rem_mod_nonneg.
Qed.

Lemma sizes_okb_spec quantum qset :
  sizes_okb quantum qset = true <->
  0 < quantum /\ 0 < qset /\ quantum * qset <= INT_MAX.
Proof. unfold sizes_okb. rewrite !andb_true_iff. lia. Qed.

Lemma sizes_bounds quantum qset :
  0 < quantum -> 0 < qset -> quantum * qset <= INT_MAX ->
  quantum <= INT_MAX /\ qset <= INT_MAX /\ 0 < quantum * qset.
Proof. intros. nia. Qed.

(** ** Address translation *)

Lemma read_write_translate quantum qset f_pos :
  read_translate quantum qset f_pos = write_translate quantum qset f_pos.
Proof. reflexivity. Qed.

Lemma write_translate_pos quantum qset pos :
  0 < quantum -> 0 < qset -> quantum * qset <= INT_MAX ->
  0 <= pos <= LLONG_MAX ->
  write_translate quantum qset pos =
    Some (to_int (pos / (quantum * qset)),
          (pos mod (quantum * qset)) / quantum,
          (pos mod (quantum * qset)) mod quantum).
Proof.
  intros Hq Hs Hi Hp.
  destruct (sizes_bounds quantum qset Hq Hs Hi) as (Hq' & Hs' & Hi').
  unfold write_translate.
  rewrite (to_int_small (quantum * qset)) by lia.
  rewrite (to_long_small pos) by lia.
  rewrite c_div_pos, c_rem_pos by lia.
  pose proof (Z.mod_pos_bound pos (quantum * qset) Hi') as Hr.
  rewrite (to_int_small (pos mod _)) by lia.
  by rewrite c_div_pos, c_rem_pos by lia.
Qed.

Lemma translate_slot_bounds quantum qset pos :
  0 < quantum -> 0 < qset ->
  0 <= (pos mod (quantum * qset)) / quantum < qset /\
  0 <= (pos mod (quantum * qset)) mod quantum < quantum.
Proof.
  intros Hq Hs.
  assert (0 < quantum * qset) as Hi by nia.
  pose proof (Z.mod_pos_bound pos (quantum * qset) Hi) as Hr.
  split; [| apply Z.mod_pos_bound; lia].
  split; [apply Z.div_pos; lia |].
  apply Z.div_lt_upper_bound; lia.
Qed.

(** ** The allocator *)

Lemma mem_le_refl m : mem_le m m.
Proof. split; [done | lia]. Qed.

Lemma mem_le_trans m1 m2 m3 : mem_le m1 m2 -> mem_le m2 m3 -> mem_le m1 m3.
Proof. intros [E1 L1] [E2 L2]. split; [congruence | lia]. Qed.

Lemma kzalloc_le m : mem_le m (kzalloc m).2.
Proof. split; simpl; [done | lia]. Qed.

Lemma mem_good_le m m' : mem_good m -> mem_le m m' -> mem_good m'.
Proof. intros G [E L] k Hk. rewrite E. apply G. lia. Qed.

(** ** scull_follow *)

Lemma follow_loop_shape k : forall i chain m r chain' m',
  (i < length chain)%nat ->
  follow_loop k i chain m = (r, chain', m') ->
  (exists j, chain' = chain ++ replicate j empty_qset) /\
  mem_le m m' /\
  (forall n, r = Some n ->
     n = (i + k)%nat /\ length chain' = (length chain `max` S n)%nat) /\
  (r = None -> (length chain <= i + k)%nat) /\
  (mem_good m -> r = Some (i + k)%nat).
Proof.
  induction k as [| k IH]; intros i chain m r chain' m' Hi Hf; simpl in Hf.
  - injection Hf as <- <- <-. split; [exists 0%nat; by rewrite app_nil_r |].
    split; [apply mem_le_refl |]. split.
    + intros n [= <-]. lia.
    + split; [done |]. intros _. f_equal. lia.
  - destruct (Nat.ltb_spec (S i) (length chain)) as [Hlt | Hge].
    + destruct (IH _ _ _ _ _ _ Hlt Hf) as (Hj & Hm & Hs & Hn & Hg).
      split; [done |]. split; [done |]. split.
      * intros n Hr. destruct (Hs n Hr). lia.
      * split; [intros Hr; specialize (Hn Hr); lia |].
        intros G. rewrite (Hg G). f_equal. lia.
    + destruct (kz_ok m (kz_calls m)) eqn:Hok.
      * assert (S i < length (chain ++ [empty_qset]))%nat as Hi'
          by (rewrite length_app; simpl; lia).
        destruct (IH _ _ _ _ _ _ Hi' Hf) as ([j Hj] & Hm & Hs & Hn & Hg).
        rewrite length_app in Hs, Hn. simpl in Hs, Hn.
        split.
        { exists (S j). by rewrite Hj, <- app_assoc. }
        split; [exact (mem_le_trans _ _ _ (kzalloc_le m) Hm) |].
        split; [intros n Hr; destruct (Hs n Hr); lia |].
        split; [intros Hr; specialize (Hn Hr); lia |].
        intros G. rewrite Hg; [f_equal; lia |].
        exact (mem_good_le _ _ G (kzalloc_le m)).
      * injection Hf as <- <- <-.
        split; [exists 0%nat; by rewrite app_nil_r |].
        split; [apply kzalloc_le |].
        split; [done |]. split; [intros _; lia |].
        intros G. specialize (G (kz_calls m)). rewrite Hok in G.
        discriminate G. lia.
Qed.

Lemma scull_follow_shape chain item m r chain' m' :
  scull_follow chain item m = (r, chain', m') ->
  (exists j, chain' = chain ++ replicate j empty_qset) /\
  mem_le m m' /\
  (forall n, r = Some n ->
     n = follow_steps item /\
     length chain' = (length chain `max` S n)%nat) /\
  (r = None -> (length chain <= follow_steps item)%nat) /\
  (mem_good m -> r = Some (follow_steps item)).
Proof.
  unfold scull_follow. destruct chain as [| hd tl].
  - destruct (kz_ok m (kz_calls m)) eqn:Hok; simpl; rewrite Hok.
    + intros Hf.
      apply follow_loop_shape in Hf; [| simpl; lia].
      destruct Hf as ([j Hj] & Hm & Hs & Hn & Hg). simpl in *.
      split; [by exists (S j) |].
      split; [exact (mem_le_trans _ _ _ (kzalloc_le m) Hm) |].
      split; [intros n Hr; destruct (Hs n Hr); lia |].
      split; [intros _; lia |].
      intros G. apply Hg. exact (mem_good_le _ _ G (kzalloc_le m)).
    + intros [= <- <- <-]. split; [by exists 0%nat |].
      split; [apply kzalloc_le |]. split; [done |].
      split; [intros _; simpl; lia |].
      intros G. specialize (G (kz_calls m)). rewrite Hok in G.
      discriminate G. lia.
  - intros Hf. apply follow_loop_shape in Hf; [| simpl; lia].
    destruct Hf as (Hj & Hm & Hs & Hn & Hg). simpl in *.
    split; [done |]. split; [done |].
    split; [intros n Hr; destruct (Hs n Hr); lia |]. done.
Qed.

(** ** Well-formed devices *)

Lemma forallb_Forall {A} (f : A -> bool) (l : list A) :
  forallb f l = true <-> Forall (fun x => f x = true) l.
Proof.
  induction l as [| x l IH]; simpl.
  - split; [constructor | done].
  - rewrite andb_true_iff, Forall_cons, IH. tauto.
Qed.

Lemma wf_dev_spec d :
  wf_dev d <->
  (0 < dev_quantum d /\ 0 < dev_qset d /\ dev_quantum d * dev_qset d <= INT_MAX) /\
  0 <= dev_size d <= ULONG_MAX /\
  chain_ok (dev_quantum d) (dev_qset d) (dev_data d).
Proof.
  unfold wf_dev, wf_devb, chain_ok.
  rewrite !andb_true_iff, sizes_okb_spec, forallb_Forall, !Z.leb_le. tauto.
Qed.

Lemma node_okb_array quantum qset n arr :
  node_okb quantum qset n = true -> qs_data n = Some arr ->
  Z.of_nat (length arr) = qset /\
  Forall (fun c => cell_okb quantum c = true) arr.
Proof.
  unfold node_okb. intros H E. rewrite E in H.
  apply andb_true_iff in H as [H1 H2].
  apply forallb_Forall in H2. split; [lia | done].
Qed.

Lemma node_okb_intro quantum qset arr :
  Z.of_nat (length arr) = qset ->
  Forall (fun c => cell_okb quantum c = true) arr ->
  node_okb quantum qset {| qs_data := Some arr |} = true.
Proof.
  intros H1 H2. unfold node_okb. simpl.
  apply andb_true_iff. split; [lia | by apply forallb_Forall].
Qed.

Lemma chain_ok_app_empty quantum qset chain j :
  chain_ok quantum qset chain ->
  chain_ok quantum qset (chain ++ replicate j empty_qset).
Proof.
  intros H. apply Forall_app. split; [done |].
  apply Forall_replicate. reflexivity.
Qed.

Lemma chain_ok_store quantum qset chain i arr s q :
  chain_ok quantum qset chain ->
  Z.of_nat (length arr) = qset ->
  Forall (fun c => cell_okb quantum c = true) arr ->
  Z.of_nat (length q) = quantum ->
  chain_ok quantum qset (store_quantum chain i arr s q).
Proof.
  intros Hc Hl Ha Hq. unfold store_quantum.
  destruct (decide (i < length chain)%nat) as [Hi | Hi].
  - apply Forall_insert; [done |].
    apply node_okb_intro; [by rewrite length_insert |].
    destruct (decide (s < length arr)%nat) as [Hs | Hs].
    + apply Forall_insert; [done |]. simpl. lia.
    + by rewrite list_insert_ge by lia.
  - by rewrite list_insert_ge by lia.
Qed.

(** ** The stored quanta *)

Lemma get_quantum_app_empty chain j n s :
  get_quantum (chain ++ replicate j empty_qset) n s = get_quantum chain n s.
Proof.
  unfold get_quantum.
  destruct (chain !! n) as [node |] eqn:Hn.
  - by rewrite (lookup_app_l_Some _ _ _ _ Hn).
  - apply lookup_ge_None_1 in Hn. rewrite lookup_app_r by done.
    destruct (replicate j empty_qset !! (n - length chain)%nat) as [e |] eqn:He;
      [| done].
    apply lookup_replicate_1 in He as [-> _]. done.
Qed.

Lemma get_quantum_beyond chain n s :
  (length chain <= n)%nat -> get_quantum chain n s = None.
Proof. intros H. unfold get_quantum. by rewrite lookup_ge_None_2. Qed.

Lemma get_quantum_set_array chain i node arr n s :
  chain !! i = Some node ->
  qs_data node = Some arr \/ (qs_data node = None /\ exists k, arr = replicate k None) ->
  get_quantum (<[i := {| qs_data := Some arr |}]> chain) n s = get_quantum chain n s.
Proof.
  intros Hi Hd. unfold get_quantum.
  destruct (decide (i = n)) as [<- | Hne].
  - rewrite list_lookup_insert_eq by (by eapply lookup_lt_Some).
    rewrite Hi. simpl. destruct Hd as [-> | [-> [k ->]]]; [done |].
    destruct (replicate k None !! s) as [c |] eqn:Hc; [| done].
    by apply lookup_replicate_1 in Hc as [-> _].
  - by rewrite list_lookup_insert_ne.
Qed.

Lemma get_quantum_store chain i arr s q n s' :
  (i < length chain)%nat -> (s < length arr)%nat ->
  get_quantum (store_quantum chain i arr s q) n s' =
    if decide (n = i /\ s' = s) then Some q
    else get_quantum (<[i := {| qs_data := Some arr |}]> chain) n s'.
Proof.
  intros Hi Hs. unfold get_quantum, store_quantum.
  destruct (decide (i = n)) as [<- | Hne].
  - rewrite !list_lookup_insert_eq by done. simpl.
    destruct (decide (s = s')) as [<- | Hne].
    + rewrite list_lookup_insert_eq by done.
      by rewrite decide_True by done.
    + rewrite list_lookup_insert_ne by done.
      by rewrite decide_False by (intros [_ ->]; done).
  - rewrite !list_lookup_insert_ne by done.
    by rewrite decide_False by (intros [-> _]; done).
Qed.

(** ** Copies into a quantum *)

Lemma length_splice q off bs :
  (off + length bs <= length q)%nat -> length (splice q off bs) = length q.
Proof.
  intros H. unfold splice.
  rewrite !length_app, length_take, length_drop. lia.
Qed.

Lemma lookup_splice_in q off bs k :
  (off <= length q)%nat -> (k < length bs)%nat ->
  splice q off bs !! (off + k)%nat = bs !! k.
Proof.
  intros Ho Hk. unfold splice.
  rewrite lookup_app_r by (rewrite length_take; lia).
  rewrite length_take, lookup_app_l by lia.
  f_equal. lia.
Qed.

Lemma lookup_splice_out q off bs j :
  (off + length bs <= length q)%nat ->
  (j < off \/ off + length bs <= j)%nat ->
  splice q off bs !! j = q !! j.
Proof.
  intros Ho Hj. unfold splice. destruct Hj as [Hj | Hj].
  - rewrite lookup_app_l by (rewrite length_take; lia).
    by rewrite lookup_take_lt.
  - rewrite lookup_app_r by (rewrite length_take; lia).
    rewrite length_take, lookup_app_r by lia.
    rewrite lookup_drop. f_equal. lia.
Qed.

(** ** What a store leaves alone *)

Lemma write_frame_same d d' pos c :
  dev_quantum d' = dev_quantum d -> dev_qset d' = dev_qset d ->
  (forall n s, get_quantum (dev_data d') n s = get_quantum (dev_data d) n s) ->
  write_frame d d' pos c.
Proof.
  intros Hq Hs Hg. split; [done |]. split; [done |]. split; [by intros |].
  intros q Hq'. exists q. by rewrite Hg.
Qed.

Lemma xfer_bounds d pos count :
  wf_dev d -> 0 <= count ->
  0 <= off_of d pos < dev_quantum d /\
  0 <= xfer d pos count /\ xfer d pos count <= count /\
  xfer d pos count <= dev_quantum d - off_of d pos.
Proof.
  intros Hwf Hc. apply wf_dev_spec in Hwf as ((Hq & Hs & _) & _).
  unfold xfer, off_of.
  destruct (translate_slot_bounds (dev_quantum d) (dev_qset d) pos Hq Hs) as [_ H].
  lia.
Qed.

Lemma store_frame chain n node arr s cell q0 off bs :
  chain !! n = Some node ->
  qs_data node = Some arr \/ (qs_data node = None /\ exists k, arr = replicate k None) ->
  arr !! s = Some cell ->
  cell = Some q0 \/ cell = None ->
  (off + length bs <= length q0)%nat ->
  let chain' := store_quantum chain n arr s (splice q0 off bs) in
  (forall n' s', (n', s') <> (n, s) -> get_quantum chain' n' s' = get_quantum chain n' s') /\
  get_quantum chain' n s = Some (splice q0 off bs) /\
  (forall q, get_quantum chain n s = Some q ->
     forall j : nat, ~ (off <= j < off + length bs)%nat -> splice q0 off bs !! j = q !! j).
Proof.
  intros Hn Hd Hs Hc Hl chain'.
  assert (n < length chain)%nat as Hn' by (by eapply lookup_lt_Some).
  assert (s < length arr)%nat as Hs' by (by eapply lookup_lt_Some).
  split; [| split].
  - intros n' s' Hne. unfold chain'. rewrite get_quantum_store by done.
    rewrite decide_False by (intros [-> ->]; done).
    by eapply get_quantum_set_array.
  - unfold chain'. rewrite get_quantum_store by done.
    by rewrite decide_True.
  - intros q Hq j Hj. unfold get_quantum in Hq. rewrite Hn in Hq.
    destruct Hd as [Hd | [Hd [k ->]]]; rewrite Hd in Hq; [| done].
    rewrite Hs in Hq. destruct Hc as [-> | ->]; [| done].
    injection Hq as <-. apply lookup_splice_out; lia.
Qed.


(** ** scull_write *)

Section WriteCall.

Variables (d : scull_dev) (ubuf : list byte) (count pos : Z).
Hypothesis Hwf : wf_dev d.
Hypothesis Hcall : call_ok pos count.

Lemma write_clamp :
  (if to_ulong (to_int (dev_quantum d - off_of d pos)) <? count
   then to_ulong (to_int (dev_quantum d - off_of d pos)) else count)
  = xfer d pos count.
Proof.
  destruct Hcall as (Hp & Hc & Hpc).
  destruct (xfer_bounds d pos count Hwf Hc) as (Hoff & _).
  apply wf_dev_spec in Hwf as ((Hq & Hs & Hi) & _).
  destruct (sizes_bounds _ _ Hq Hs Hi) as (Hq' & _).
  unfold INT_MAX in *.
  rewrite to_int_small by (unfold INT_MAX; lia).
  rewrite to_ulong_small by (unfold ULONG_MAX; lia).
  unfold xfer. destruct (Z.ltb_spec (dev_quantum d - off_of d pos) count); lia.
Qed.

Lemma write_post_mem lk m m2 r :
  mem_le m m2 ->
  write_post lk d m2 ubuf count pos r -> write_post lk d m ubuf count pos r.
Proof.
  intros Hm (H1 & H2 & H3 & H4).
  split; [done |]. split; [by eapply mem_le_trans |]. split; [done |].
  destruct H4 as [(R1 & R2 & R3 & R4) | H4]; [left | by right].
  repeat (split; [done |]).
  destruct R4 as [R4 | [R4 | R4]]; [by left | right; left | by right; right].
  intros G. apply R4. by eapply mem_good_le.
Qed.

Lemma write_post_same lk m m' chain ret :
  (forall n s, get_quantum chain n s = get_quantum (dev_data d) n s) ->
  chain_ok (dev_quantum d) (dev_qset d) chain ->
  mem_le m m' -> ret <= 0 ->
  lk = Interrupted \/ ~ mem_good m ->
  write_post lk d m ubuf count pos
    {| w_ret := ret; w_fpos := pos; w_dev := set_data d chain; w_mem := m' |}.
Proof.
  intros Hg Hok Hm Hret Hwhy.
  pose proof Hwf as Hwf'. apply wf_dev_spec in Hwf' as (Hsz & Hsize & _).
  split; [by apply wf_dev_spec |]. split; [done |].
  split; [by apply write_frame_same |].
  left. unfold write_failed. simpl. repeat (split; [done |]). tauto.
Qed.

Lemma store_post chain node arr cell q bs d' :
  chain_ok (dev_quantum d) (dev_qset d) chain ->
  (forall n s, get_quantum chain n s = get_quantum (dev_data d) n s) ->
  chain !! seg_of d pos = Some node ->
  qs_data node = Some arr \/ (qs_data node = None /\ exists k, arr = replicate k None) ->
  Z.of_nat (length arr) = dev_qset d ->
  Forall (fun c => cell_okb (dev_quantum d) c = true) arr ->
  arr !! slot_of d pos = Some cell ->
  cell = Some q \/ cell = None ->
  Z.of_nat (length q) = dev_quantum d ->
  Z.of_nat (length bs) = xfer d pos count ->
  dev_data d' =
    store_quantum chain (seg_of d pos) arr (slot_of d pos)
      (splice q (Z.to_nat (off_of d pos)) bs) ->
  dev_quantum d' = dev_quantum d -> dev_qset d' = dev_qset d ->
  0 <= dev_size d' <= ULONG_MAX ->
  wf_dev d' /\ write_frame d d' pos (xfer d pos count) /\
  get_quantum (dev_data d') (seg_of d pos) (slot_of d pos)
    = Some (splice q (Z.to_nat (off_of d pos)) bs).
Proof.
  intros Hok Hg Hn Hd Hla Ha Hs Hc Hlq Hlb Hdata Hq' Hs' Hsz'.
  destruct Hcall as (Hp & Hc0 & Hpc).
  destruct (xfer_bounds d pos count Hwf Hc0) as (Hoff & Hx0 & Hxc & Hxq).
  pose proof Hwf as Hwf'. apply wf_dev_spec in Hwf' as (Hsz & _ & _).
  assert (Z.to_nat (off_of d pos) + length bs <= length q)%nat as Hfit by lia.
  destruct (store_frame chain _ node arr _ cell q _ bs Hn Hd Hs Hc Hfit)
    as (F1 & F2 & F3).
  split; [| split].
  - apply wf_dev_spec. rewrite Hq', Hs', Hdata.
    split; [done |]. split; [done |].
    apply chain_ok_store; try done. rewrite length_splice; done.
  - split; [done |]. split; [done |]. rewrite Hdata. split.
    + intros n s Hne. rewrite F1 by done. apply Hg.
    + intros q0 Hq0. eexists. split; [exact F2 |].
      intros j Hj. apply F3; [by rewrite Hg | lia].
  - by rewrite Hdata.
Qed.

Lemma write_copy_post chain node arr cell q m :
  chain_ok (dev_quantum d) (dev_qset d) chain ->
  (forall n s, get_quantum chain n s = get_quantum (dev_data d) n s) ->
  chain !! seg_of d pos = Some node ->
  qs_data node = Some arr \/ (qs_data node = None /\ exists k, arr = replicate k None) ->
  Z.of_nat (length arr) = dev_qset d ->
  Forall (fun c => cell_okb (dev_quantum d) c = true) arr ->
  arr !! slot_of d pos = Some cell ->
  cell = Some q \/ cell = None ->
  Z.of_nat (length q) = dev_quantum d ->
  exists r,
    write_copy d chain (seg_of d pos) arr
      ((pos mod (dev_quantum d * dev_qset d)) / dev_quantum d) (off_of d pos)
      q m ubuf count pos = Done r /\
    write_post Acquired d m ubuf count pos r.
Proof.
  intros Hok Hg Hn Hd Hla Ha Hs Hc Hlq.
  pose proof Hcall as (Hp & Hc0 & Hpc).
  destruct (xfer_bounds d pos count Hwf Hc0) as (Hoff & Hx0 & Hxc & Hxq).
  pose proof Hwf as Hwf'. apply wf_dev_spec in Hwf' as (Hsz & Hsize & _).
  unfold write_copy. rewrite write_clamp. fold (slot_of d pos).
  destruct (Z.ltb_spec (off_of d pos) 0) as [? | _]; [lia |].
  destruct (Z.ltb_spec (Z.of_nat (length q)) (off_of d pos + xfer d pos count))
    as [? | _]; [lia |].
  simpl. unfold LLONG_MAX, ULONG_MAX in *.
  destruct (Z.ltb_spec (Z.of_nat (length ubuf)) (xfer d pos count)) as [Hshort | Hlong].
  - set (bs := ubuf ++ replicate
                (Z.to_nat (xfer d pos count - Z.of_nat (length ubuf))) x00).
    assert (Z.of_nat (length bs) = xfer d pos count) as Hlen
      by (unfold bs; rewrite length_app, length_replicate; lia).
    set (d' := set_data d
                 (store_quantum chain (seg_of d pos) arr (slot_of d pos)
                    (splice q (Z.to_nat (off_of d pos)) bs))).
    destruct (store_post chain node arr cell q bs d' Hok Hg Hn Hd Hla Ha Hs Hc
                Hlq Hlen eq_refl eq_refl eq_refl Hsize) as (W1 & W2 & W3).
    exists {| w_ret := - EFAULT; w_fpos := pos; w_dev := d'; w_mem := m |}.
    split; [reflexivity |].
    split; [exact W1 |]. split; [apply mem_le_refl |]. split; [exact W2 |].
    left. unfold write_failed. simpl. unfold EFAULT. split; [lia |]. tauto.
  - rewrite (to_long_small (pos + _)) by (unfold LLONG_MAX; lia).
    rewrite (to_ulong_small (pos + _)) by (unfold ULONG_MAX; lia).
    rewrite (to_int_small (xfer d pos count)).
    2: { destruct Hsz as (Hq & Hqs & Hi).
         destruct (sizes_bounds _ _ Hq Hqs Hi) as (Hq' & _).
         unfold INT_MAX in *. lia. }
    set (bs := take (Z.to_nat (xfer d pos count)) ubuf).
    assert (Z.of_nat (length bs) = xfer d pos count) as Hlen
      by (unfold bs; rewrite length_take; lia).
    set (size' := if dev_size d <? pos + xfer d pos count
                  then pos + xfer d pos count else dev_size d).
    assert (size' = Z.max (dev_size d) (pos + xfer d pos count)) as Hmax
      by (unfold size'; destruct (Z.ltb_spec (dev_size d) (pos + xfer d pos count)); lia).
    set (d' := {| dev_data :=
                    store_quantum chain (seg_of d pos) arr (slot_of d pos)
                      (splice q (Z.to_nat (off_of d pos)) bs);
                  dev_quantum := dev_quantum d; dev_qset := dev_qset d;
                  dev_size := size' |}).
    assert (0 <= dev_size d' <= 18446744073709551615) as Hsz' by (simpl; lia).
    destruct (store_post chain node arr cell q bs d' Hok Hg Hn Hd Hla Ha Hs Hc
                Hlq Hlen eq_refl eq_refl eq_refl Hsz') as (W1 & W2 & W3).
    exists {| w_ret := xfer d pos count; w_fpos := pos + xfer d pos count;
              w_dev := d'; w_mem := m |}.
    split; [reflexivity |].
    split; [exact W1 |]. split; [apply mem_le_refl |]. split; [exact W2 |].
    right. split; [done |]. split; [done |]. split; [exact Hmax |].
    eexists. split; [exact W3 |].
    intros k Hk. unfold bs.
    rewrite lookup_splice_in; [| lia | rewrite length_take; lia].
    apply lookup_take_lt. lia.
Qed.

Lemma write_slot_post chain node arr m :
  chain_ok (dev_quantum d) (dev_qset d) chain ->
  (forall n s, get_quantum chain n s = get_quantum (dev_data d) n s) ->
  chain !! seg_of d pos = Some node ->
  qs_data node = Some arr \/ (qs_data node = None /\ exists k, arr = replicate k None) ->
  Z.of_nat (length arr) = dev_qset d ->
  Forall (fun c => cell_okb (dev_quantum d) c = true) arr ->
  exists r,
    write_slot d chain (seg_of d pos) arr
      ((pos mod (dev_quantum d * dev_qset d)) / dev_quantum d) (off_of d pos)
      m ubuf count pos = Done r /\
    write_post Acquired d m ubuf count pos r.
Proof.
  intros Hok Hg Hn Hd Hla Ha.
  pose proof Hwf as Hwf'. apply wf_dev_spec in Hwf' as ((Hq & Hs & Hi) & _ & _).
  destruct (sizes_bounds _ _ Hq Hs Hi) as (Hq' & _).
  destruct (translate_slot_bounds (dev_quantum d) (dev_qset d) pos Hq Hs) as [Hsl _].
  unfold write_slot, slot.
  destruct (Z.ltb_spec ((pos mod (dev_quantum d * dev_qset d)) / dev_quantum d) 0)
    as [? | _]; [lia |].
  fold (slot_of d pos).
  assert (slot_of d pos < length arr)%nat as Hlt by (unfold slot_of; lia).
  destruct (lookup_lt_is_Some_2 arr _ Hlt) as [cell Hcell]. rewrite Hcell.
  destruct cell as [q |].
  - pose proof (proj1 (Forall_lookup _ _) Ha _ _ Hcell) as Hlq. simpl in Hlq.
    apply Z.eqb_eq in Hlq.
    eapply write_copy_post; eauto.
  - unfold kzalloc. destruct (kz_ok m (kz_calls m)) eqn:Halloc.
    + edestruct (write_copy_post chain node arr None) as (r & Hr & Hpost); eauto.
      2: { exists r. split; [exact Hr |].
           eapply write_post_mem; [| exact Hpost]. apply (kzalloc_le m). }
      rewrite length_replicate, to_ulong_small by (unfold ULONG_MAX, INT_MAX in *; lia).
      lia.
    + eexists. split; [reflexivity |].
      apply write_post_same.
      * intros n s. rewrite <- Hg. by eapply get_quantum_set_array.
      * apply Forall_insert; [done |]. by apply node_okb_intro.
      * apply (kzalloc_le m).
      * unfold ENOMEM. lia.
      * right. intros G. specialize (G (kz_calls m)).
        rewrite Halloc in G. discriminate G. lia.
Qed.

Lemma write_array_post chain node m :
  chain_ok (dev_quantum d) (dev_qset d) chain ->
  (forall n s, get_quantum chain n s = get_quantum (dev_data d) n s) ->
  chain !! seg_of d pos = Some node ->
  exists r,
    write_array d chain (seg_of d pos) node
      ((pos mod (dev_quantum d * dev_qset d)) / dev_quantum d) (off_of d pos)
      m ubuf count pos = Done r /\
    write_post Acquired d m ubuf count pos r.
Proof.
  intros Hok Hg Hn.
  pose proof Hwf as Hwf'. apply wf_dev_spec in Hwf' as ((Hq & Hs & Hi) & _ & _).
  destruct (sizes_bounds _ _ Hq Hs Hi) as (_ & Hs' & _).
  unfold write_array. destruct (qs_data node) as [arr |] eqn:Hd.
  - pose proof Hok as Hok'. unfold chain_ok in Hok'. rewrite Forall_lookup in Hok'.
    destruct (node_okb_array _ _ _ _ (Hok' _ _ Hn) Hd) as [Hla Ha].
    eapply write_slot_post; eauto.
  - unfold kzalloc. destruct (kz_ok m (kz_calls m)) eqn:Halloc.
    + assert (to_ulong (dev_qset d * 8) / 8 = dev_qset d) as ->.
      { rewrite to_ulong_small by (unfold ULONG_MAX, INT_MAX in *; lia).
        apply Z.div_mul. lia. }
      edestruct (write_slot_post chain node
                   (replicate (Z.to_nat (dev_qset d)) None)) as (r & Hr & Hpost);
        eauto.
      3: { exists r. split; [exact Hr |].
           eapply write_post_mem; [| exact Hpost]. apply (kzalloc_le m). }
      * rewrite length_replicate. lia.
      * by apply Forall_replicate.
    + eexists. split; [reflexivity |].
      apply write_post_same; [done | done | apply (kzalloc_le m) | unfold ENOMEM; lia |].
      right. intros G. specialize (G (kz_calls m)).
      rewrite Halloc in G. discriminate G. lia.
Qed.

Lemma scull_write_post lk m :
  exists r, scull_write lk d m ubuf count pos = Done r /\
    write_post lk d m ubuf count pos r.
Proof.
  pose proof Hcall as (Hp & Hc & Hpc).
  pose proof Hwf as Hwf'. apply wf_dev_spec in Hwf' as ((Hq & Hs & Hi) & Hsize & Hok).
  unfold scull_write. destruct lk.
  2: { eexists. split; [reflexivity |].
       replace d with (set_data d (dev_data d)) at 2 by (by destruct d).
       apply write_post_same;
         [done | done | apply mem_le_refl | unfold ERESTARTSYS; lia | by left]. }
  rewrite write_translate_pos by lia.
  fold (off_of d pos).
  destruct (scull_follow (dev_data d) _ m) as [[r chain1] m1] eqn:Hf.
  apply scull_follow_shape in Hf as ([j Hj] & Hm1 & Hsome & Hnone & Hgood).
  fold (seg_of d pos) in *.
  assert (Hg1 : forall n s, get_quantum chain1 n s = get_quantum (dev_data d) n s)
    by (intros; rewrite Hj; apply get_quantum_app_empty).
  assert (Hok1 : chain_ok (dev_quantum d) (dev_qset d) chain1)
    by (rewrite Hj; by apply chain_ok_app_empty).
  destruct r as [n |].
  2: { eexists. split; [reflexivity |].
       apply write_post_same; try done. right. intros G.
       by specialize (Hgood G). }
  destruct (Hsome n eq_refl) as [-> Hlen].
  assert (seg_of d pos < length chain1)%nat as Hn by lia.
  destruct (lookup_lt_is_Some_2 chain1 _ Hn) as [node Hnode]. rewrite Hnode.
  destruct (write_array_post chain1 node m1 Hok1 Hg1 Hnode) as (r & Hr & Hpost).
  exists r. split; [exact Hr |]. by eapply write_post_mem.
Qed.

End WriteCall.

(** ** scull_read *)

Lemma set_data_id d : set_data d (dev_data d) = d.
Proof. by destruct d. Qed.

Lemma scull_read_post d m room count pos :
  wf_dev d -> call_ok pos count ->
  exists r, scull_read Acquired d m room count pos = Done r /\
    read_post d m room count pos r.
Proof.
  intros Hwf (Hp & Hc & Hpc).
  pose proof Hwf as Hwf'. apply wf_dev_spec in Hwf' as ((Hq & Hs & Hi) & Hsize & Hok).
  destruct (sizes_bounds _ _ Hq Hs Hi) as (Hq' & Hs' & Hi').
  destruct (translate_slot_bounds (dev_quantum d) (dev_qset d) pos Hq Hs) as [Hsl Hoff].
  fold (off_of d pos) in Hoff.
  unfold scull_read, read_post. unfold LLONG_MAX, ULONG_MAX, INT_MAX in *.
  rewrite (to_ulong_small pos) by (unfold ULONG_MAX; lia).
  destruct (Z.ltb_spec (dev_size d) pos) as [Hpast | Hin].
  { eexists. split; [reflexivity |]. simpl.
    split; [exists 0%nat; by rewrite app_nil_r, set_data_id |].
    split; [apply mem_le_refl | done]. }
  rewrite (to_ulong_small (pos + count)) by (unfold ULONG_MAX; lia).
  rewrite (to_ulong_small (dev_size d - pos)) by (unfold ULONG_MAX; lia).
  set (count1 := if dev_size d <? pos + count then dev_size d - pos else count).
  assert (count1 = Z.min count (dev_size d - pos)) as Hc1
    by (unfold count1; destruct (Z.ltb_spec (dev_size d) (pos + count)); lia).
  rewrite read_write_translate, write_translate_pos by (unfold INT_MAX, LLONG_MAX; lia).
  fold (off_of d pos).
  destruct (scull_follow (dev_data d) _ m) as [[r chain1] m1] eqn:Hf.
  apply scull_follow_shape in Hf as ([j Hj] & Hm1 & Hsome & Hnone & Hgood).
  fold (seg_of d pos) in *.
  assert (Hg1 : forall n s, get_quantum chain1 n s = get_quantum (dev_data d) n s)
    by (intros; rewrite Hj; apply get_quantum_app_empty).
  assert (Hok1 : chain_ok (dev_quantum d) (dev_qset d) chain1)
    by (rewrite Hj; by apply chain_ok_app_empty).
  assert (Hlen : mem_good m ->
            length chain1 = (length (dev_data d) `max` S (seg_of d pos))%nat).
  { intros G. destruct (Hsome _ (Hgood G)) as [_ H]. exact H. }
  assert (Hshape : exists j, set_data d chain1
                     = set_data d (dev_data d ++ replicate j empty_qset))
    by (exists j; by rewrite Hj).
  destruct r as [n |].
  2: { eexists. split; [reflexivity |]. simpl.
       rewrite get_quantum_beyond by (by apply Hnone). done. }
  destruct (Hsome n eq_refl) as [-> Hlen'].
  assert (seg_of d pos < length chain1)%nat as Hn by lia.
  destruct (lookup_lt_is_Some_2 chain1 _ Hn) as [node Hnode]. rewrite Hnode.
  rewrite <- Hg1. unfold get_quantum. rewrite Hnode.
  destruct (qs_data node) as [arr |] eqn:Hd.
  2: { eexists. split; [reflexivity |]. done. }
  pose proof Hok1 as Hok1'. unfold chain_ok in Hok1'. rewrite Forall_lookup in Hok1'.
  destruct (node_okb_array _ _ _ _ (Hok1' _ _ Hnode) Hd) as [Hla Ha].
  unfold slot.
  destruct (Z.ltb_spec ((pos mod (dev_quantum d * dev_qset d)) / dev_quantum d) 0)
    as [? | _]; [lia |].
  fold (slot_of d pos).
  assert (slot_of d pos < length arr)%nat as Hlt by (unfold slot_of; lia).
  destruct (lookup_lt_is_Some_2 arr _ Hlt) as [cell Hcell]. rewrite Hcell.
  destruct cell as [q |].
  2: { eexists. split; [reflexivity |]. done. }
  pose proof (proj1 (Forall_lookup _ _) Ha _ _ Hcell) as Hlq. simpl in Hlq.
  apply Z.eqb_eq in Hlq.
  rewrite (to_int_small (dev_quantum d - off_of d pos)) by (unfold INT_MAX; lia).
  rewrite (to_ulong_small (dev_quantum d - off_of d pos)) by (unfold ULONG_MAX; lia).
  set (c := if dev_quantum d - off_of d pos <? count1
            then dev_quantum d - off_of d pos else count1).
  assert (c = read_avail d pos count) as Hcv.
  { unfold c, read_avail. rewrite <- Hc1.
    destruct (Z.ltb_spec (dev_quantum d - off_of d pos) count1); lia. }
  assert (0 <= c <= dev_quantum d - off_of d pos /\ c <= count) as [Hcb Hcc]
    by (rewrite Hcv; unfold read_avail; lia).
  destruct (Z.ltb_spec (off_of d pos) 0) as [? | _]; [lia |].
  destruct (Z.ltb_spec (Z.of_nat (length q)) (off_of d pos + c)) as [? | _]; [lia |].
  simpl. rewrite <- Hcv.
  destruct (Z.ltb_spec room c).
  - eexists. split; [reflexivity |]. done.
  - rewrite (to_long_small c) by (unfold LLONG_MAX; lia).
    rewrite (to_long_small (pos + c)) by (unfold LLONG_MAX; lia).
    eexists. split; [reflexivity |]. done.
Qed.

(** A read that finds its quantum, with room for the bytes. *)
Lemma scull_read_hit d m room count pos q :
  wf_dev d -> call_ok pos count -> pos <= dev_size d ->
  get_quantum (dev_data d) (seg_of d pos) (slot_of d pos) = Some q ->
  read_avail d pos count <= room ->
  exists r, scull_read Acquired d m room count pos = Done r /\
    r_ret r = read_avail d pos count /\
    r_user r = take (Z.to_nat (read_avail d pos count)) (drop (Z.to_nat (off_of d pos)) q) /\
    r_fpos r = pos + read_avail d pos count.
Proof.
  intros Hwf Hcall Hin Hq Hroom.
  destruct (scull_read_post d m room count pos Hwf Hcall) as (r & Hr & _ & _ & Hpost).
  exists r. split; [exact Hr |].
  destruct (Z.ltb_spec (dev_size d) pos) as [? | _]; [lia |].
  destruct Hpost as [_ Hpost]. rewrite Hq in Hpost. simpl in Hpost.
  by destruct (Z.ltb_spec room (read_avail d pos count)); [lia |].
Qed.

(** A read that finds no quantum. *)
Lemma scull_read_hole d m room count pos :
  wf_dev d -> call_ok pos count -> pos <= dev_size d ->
  get_quantum (dev_data d) (seg_of d pos) (slot_of d pos) = None ->
  exists r, scull_read Acquired d m room count pos = Done r /\
    r_ret r = 0 /\ r_user r = [] /\ r_fpos r = pos.
Proof.
  intros Hwf Hcall Hin Hq.
  destruct (scull_read_post d m room count pos Hwf Hcall) as (r & Hr & _ & _ & Hpost).
  exists r. split; [exact Hr |].
  destruct (Z.ltb_spec (dev_size d) pos) as [? | _]; [lia |].
  destruct Hpost as [_ Hpost]. by rewrite Hq in Hpost.
Qed.

(** ** Trim, and the states a device can be in *)

Lemma trim_chain_ok quantum qset chain :
  chain_ok quantum qset chain -> trim_chain qset chain = Done tt.
Proof.
  induction 1 as [| node chain Hnode _ IH]; simpl; [done |].
  destruct (qs_data node) as [arr |] eqn:Hd; [| done].
  destruct (node_okb_array _ _ _ _ Hnode Hd) as [Hl _].
  by destruct (Z.leb_spec qset (Z.of_nat (length arr))); [| lia].
Qed.

Lemma scull_trim_wf p d :
  wf_dev d -> scull_trim p d = Done (0, fresh_dev p).
Proof.
  intros Hwf. apply wf_dev_spec in Hwf as (_ & _ & Hok).
  unfold scull_trim. by rewrite (trim_chain_ok _ _ _ Hok).
Qed.

Lemma fresh_dev_wf p :
  sizes_okb (scull_quantum p) (scull_qset p) = true -> wf_dev (fresh_dev p).
Proof. intros H. unfold wf_dev, wf_devb. simpl. by rewrite H. Qed.

Lemma scull_read_any lk d m room count pos :
  wf_dev d -> call_ok pos count ->
  exists r j, scull_read lk d m room count pos = Done r /\
    r_dev r = set_data d (dev_data d ++ replicate j empty_qset) /\
    mem_le m (r_mem r).
Proof.
  intros Hwf Hcall. destruct lk.
  - destruct (scull_read_post d m room count pos Hwf Hcall)
      as (r & Hr & [j Hj] & Hm & _).
    by exists r, j.
  - eexists _, 0%nat. split; [reflexivity |]. simpl.
    rewrite app_nil_r, set_data_id. split; [done | apply mem_le_refl].
Qed.

Lemma set_data_app_wf d j :
  wf_dev d -> wf_dev (set_data d (dev_data d ++ replicate j empty_qset)).
Proof.
  intros Hwf. apply wf_dev_spec in Hwf as (Hs & Hsize & Hok).
  apply wf_dev_spec. simpl. split; [done |]. split; [done |].
  by apply chain_ok_app_empty.
Qed.

(** Every call returns, and leaves the device well formed. *)
Lemma step_wf p o d m :
  sizes_okb (scull_quantum p) (scull_qset p) = true ->
  wf_dev d -> op_ok o ->
  exists ret d' m', step p o d m = Done (ret, d', m') /\ wf_dev d'.
Proof.
  intros Hp Hwf Ho. destruct o as [lk flags | | lk room count pos | lk ubuf count pos];
    simpl in *.
  - unfold scull_open. destruct (Z.land flags O_ACCMODE =? O_WRONLY).
    + destruct lk; [| by eexists _, _, _].
      rewrite scull_trim_wf by done.
      eexists _, _, _. split; [reflexivity |]. by apply fresh_dev_wf.
    + by eexists _, _, _.
  - by eexists _, _, _.
  - destruct (scull_read_any lk d m room count pos Hwf Ho) as (r & j & -> & Hd & _).
    eexists _, _, _. split; [reflexivity |]. rewrite Hd. by apply set_data_app_wf.
  - destruct (scull_write_post d ubuf count pos Hwf Ho lk m) as (r & -> & Hwf' & _).
    by eexists _, _, _.
Qed.

Lemma reachable_wf p d :
  sizes_okb (scull_quantum p) (scull_qset p) = true ->
  reachable p d -> wf_dev d.
Proof.
  intros Hp. induction 1 as [| o d m ret d' m' _ IH Ho Hstep].
  - by apply fresh_dev_wf.
  - destruct (step_wf p o d m Hp IH Ho) as (ret0 & d0 & m0 & Hs & Hwf).
    rewrite Hs in Hstep. by injection Hstep as _ <- _.
Qed.

(** No call but a trim lowers [size]; a read, and a write that returns an
    error, leave it as it is. *)
Lemma step_size p o d m :
  wf_dev d -> op_ok o ->
  exists ret d' m', step p o d m = Done (ret, d', m') /\
    (trims o = false -> dev_size d <= dev_size d') /\
    match o with
    | OpRead _ _ _ _ => dev_size d' = dev_size d
    | OpWrite _ _ _ _ => ret < 0 -> dev_size d' = dev_size d
    | _ => True
    end.
Proof.
  intros Hwf Ho. destruct o as [lk flags | | lk room count pos | lk ubuf count pos];
    simpl in *.
  - unfold scull_open. destruct (Z.land flags O_ACCMODE =? O_WRONLY).
    + destruct lk.
      * rewrite scull_trim_wf by done. eexists _, _, _.
        split; [reflexivity |]. split; [done | done].
      * eexists _, _, _. split; [reflexivity |]. split; [lia | done].
    + eexists _, _, _. split; [reflexivity |]. split; [destruct lk; lia | done].
  - eexists _, _, _. split; [reflexivity |]. split; [lia | done].
  - destruct (scull_read_any lk d m room count pos Hwf Ho) as (r & j & -> & Hd & _).
    eexists _, _, _. split; [reflexivity |]. rewrite Hd. simpl. split; [lia | done].
  - destruct (scull_write_post d ubuf count pos Hwf Ho lk m)
      as (r & -> & _ & _ & _ & Hcase).
    pose proof Ho as (_ & Hc & _).
    destruct (xfer_bounds d pos count Hwf Hc) as (_ & Hx0 & _).
    eexists _, _, _. split; [reflexivity |].
    destruct Hcase as [(R1 & R2 & R3 & _) | (R1 & R2 & R3 & _)]; rewrite R3.
    + split; [lia | done].
    + split; [lia |]. rewrite R1. lia.
Qed.

(** The devices of a load that succeeds are fresh ones. *)
Lemma scull_init_devices p e drv :
  scull_init p e = Done (0, drv) ->
  drv_devices drv = Some (replicate 4 (fresh_dev p)).
Proof.
  unfold scull_init.
  destruct (region_err e =? 0) eqn:Hreg; simpl.
  2: { intros [= H _]. rewrite H in Hreg. discriminate Hreg. }
  destruct (kz_ok (init_mem e) (kz_calls (init_mem e))); simpl;
    [| intros [= H _]; discriminate H].
  unfold fresh_dev.
  destruct (cdev_add_err e 0 =? 0) eqn:H0;
    [destruct (cdev_add_err e 1 =? 0) eqn:H1;
       [destruct (cdev_add_err e 2 =? 0) eqn:H2;
          [destruct (cdev_add_err e 3 =? 0) eqn:H3 |] |] |];
    simpl.
  1: { intros [= <-]. simpl. by destruct (scull_major p =? 0). }
  all: match goal with
       | H : (?x =? 0) = false |- _ =>
           rewrite H; destruct (scull_cleanup _); [| discriminate];
           intros [= E _]; rewrite E in H; discriminate H
       end.
Qed.

(** ** Sequences of writes *)

(** A write that nothing stops goes through. *)
Lemma scull_write_clean d m ubuf count pos :
  wf_dev d -> call_ok pos count -> mem_good m ->
  xfer d pos count <= len ubuf ->
  exists r, scull_write Acquired d m ubuf count pos = Done r /\
    wf_dev (w_dev r) /\ mem_good (w_mem r) /\
    write_frame d (w_dev r) pos (xfer d pos count) /\
    write_done d ubuf count pos r.
Proof.
  intros Hwf Hcall G Hbuf.
  destruct (scull_write_post d ubuf count pos Hwf Hcall Acquired m)
    as (r & Hr & Hwf' & Hm & Hframe & Hcase).
  exists r. split; [exact Hr |]. split; [exact Hwf' |].
  split; [by eapply mem_good_le |]. split; [exact Hframe |].
  destruct Hcase as [(_ & _ & _ & [? | [? | ?]]) | Hdone];
    [done | done | unfold len in Hbuf; lia | exact Hdone].
Qed.

Lemma run_writes_clean ws : forall d m,
  wf_dev d -> mem_good m -> Forall wcall_clean ws ->
  exists rets d' m', run_writes d m ws = Done (rets, d', m') /\
    length rets = length ws /\
    Forall (fun ret => 0 <= ret) rets /\
    dev_size d' = Z.max (dev_size d) (high_water ws rets).
Proof.
  induction ws as [| w ws IH]; intros d m Hwf G Hws.
  - exists [], d, m. split; [done |]. split; [done |]. split; [done |].
    apply wf_dev_spec in Hwf as (_ & Hsize & _).
    unfold high_water. simpl. lia.
  - apply Forall_cons in Hws as [(Hlk & Hcall & Hbuf) Hws].
    pose proof Hcall as (_ & Hc & _).
    destruct (xfer_bounds d (wc_pos w) (wc_count w) Hwf Hc) as (_ & Hx0 & Hxc & _).
    destruct (scull_write_clean d m (wc_buf w) (wc_count w) (wc_pos w) Hwf Hcall G)
      as (r & Hr & Hwf' & G' & _ & (R1 & _ & R3 & _)); [lia |].
    destruct (IH (w_dev r) (w_mem r) Hwf' G' Hws)
      as (rets & d' & m' & Hrun & Hlen & Hpos & Hsize).
    exists (w_ret r :: rets), d', m'. simpl. rewrite Hlk, Hr, Hrun.
    split; [done |]. split; [by rewrite Hlen |].
    split; [constructor; [lia | done] |].
    rewrite Hsize, R3, R1. unfold high_water. simpl. lia.
Qed.

(** ** Bytes that stay in place *)

(** Within the offsets whose node index fits an [int], the node, the slot
    and the offset in the quantum determine the offset. *)
Lemma same_quantum_same_base d pos pos2 :
  wf_dev d -> 0 <= pos -> 0 <= pos2 ->
  reachable_pos d pos -> reachable_pos d pos2 ->
  seg_of d pos2 = seg_of d pos -> slot_of d pos2 = slot_of d pos ->
  pos2 - off_of d pos2 = pos - off_of d pos.
Proof.
  intros Hwf Hp Hp2 Hr Hr2 Hseg Hslot.
  apply wf_dev_spec in Hwf as ((Hq & Hs & Hi) & _).
  destruct (sizes_bounds _ _ Hq Hs Hi) as (_ & _ & Hi').
  unfold reachable_pos, seg_of, slot_of, off_of, follow_steps in *.
  set (I := dev_quantum d * dev_qset d) in *.
  assert (0 <= pos / I) by (apply Z.div_pos; lia).
  assert (0 <= pos2 / I) by (apply Z.div_pos; lia).
  unfold INT_MAX in *.
  rewrite !to_int_small in Hseg by (unfold INT_MAX; lia).
  rewrite !to_uint_small in Hseg by lia.
  apply Z2Nat.inj in Hseg; [| lia | lia].
  pose proof (Z.mod_pos_bound pos I Hi') as Hm.
  pose proof (Z.mod_pos_bound pos2 I Hi') as Hm2.
  apply Z2Nat.inj in Hslot; [| apply Z.div_pos; lia | apply Z.div_pos; lia].
  pose proof (Z.div_mod pos I) as E1.
  pose proof (Z.div_mod pos2 I) as E2.
  pose proof (Z.div_mod (pos mod I) (dev_quantum d)) as E3.
  pose proof (Z.div_mod (pos2 mod I) (dev_quantum d)) as E4.
  rewrite Hseg in E2. rewrite Hslot in E4. lia.
Qed.

Lemma kept_write d pos bs d1 m w n :
  wf_dev d -> 0 <= pos -> reachable_pos d pos -> len bs <= n ->
  kept d pos bs d1 -> wcall_apart d pos n w ->
  exists r, scull_write (wc_lock w) d1 m (wc_buf w) (wc_count w) (wc_pos w) = Done r /\
    kept d pos bs (w_dev r).
Proof.
  intros Hwf Hp Hreach Hn (Hwf1 & Hq1 & Hs1 & Hsz & q & Hq & Hbytes)
    (Hcall & Hreach2 & Hapart).
  destruct (scull_write_post d1 (wc_buf w) (wc_count w) (wc_pos w) Hwf1 Hcall
              (wc_lock w) m) as (r & Hr & Hwf' & _ & Hframe & Hcase).
  exists r. split; [exact Hr |].
  destruct Hframe as (Fq & Fs & Fother & Fsame).
  pose proof Hcall as (Hp2 & Hc2 & _).
  destruct (xfer_bounds d1 (wc_pos w) (wc_count w) Hwf1 Hc2) as (Hoff2 & Hx0 & Hxc & _).
  assert (Hco : forall x, seg_of d1 x = seg_of d x /\ slot_of d1 x = slot_of d x /\
                          off_of d1 x = off_of d x).
  { intros x. unfold seg_of, slot_of, off_of. by rewrite Hq1, Hs1. }
  split; [exact Hwf' |]. split; [congruence |]. split; [congruence |].
  split.
  { destruct Hcase as [(_ & _ & -> & _) | (_ & _ & -> & _)]; lia. }
  destruct (Hco (wc_pos w)) as (Eseg & Eslot & Eoff).
  rewrite Eseg, Eslot, Eoff in *.
  destruct (decide ((seg_of d pos, slot_of d pos)
                    = (seg_of d (wc_pos w), slot_of d (wc_pos w)))) as [Heq | Hne].
  - injection Heq as Hseg Hslot. rewrite Hseg, Hslot in Hq.
    destruct (Fsame q Hq) as (q' & Hq' & Hout).
    exists q'. rewrite Hseg, Hslot. split; [exact Hq' |].
    intros k Hk. rewrite <- Hbytes by done. apply Hout.
    pose proof (same_quantum_same_base d pos (wc_pos w) Hwf Hp Hp2 Hreach Hreach2
                  (eq_sym Hseg) (eq_sym Hslot)) as Hbase.
    assert (xfer d1 (wc_pos w) (wc_count w) <= wc_count w) by lia.
    pose proof Hwf as Hwf0. apply wf_dev_spec in Hwf0 as ((Hq0 & Hs0 & _) & _).
    destruct (translate_slot_bounds (dev_quantum d) (dev_qset d) pos Hq0 Hs0)
      as [_ Hoff].
    fold (off_of d pos) in Hoff. unfold len in *. lia.
  - exists q. split; [| exact Hbytes].
    by rewrite Fother.
Qed.

Lemma kept_run d pos bs n ws : forall d1 m,
  wf_dev d -> 0 <= pos -> reachable_pos d pos -> len bs <= n ->
  kept d pos bs d1 -> Forall (wcall_apart d pos n) ws ->
  exists rets d2 m2, run_writes d1 m ws = Done (rets, d2, m2) /\
    kept d pos bs d2.
Proof.
  induction ws as [| w ws IH]; intros d1 m Hwf Hp Hreach Hn Hkept Hws.
  - by exists [], d1, m.
  - apply Forall_cons in Hws as [Hw Hws].
    destruct (kept_write d pos bs d1 m w n Hwf Hp Hreach Hn Hkept Hw)
      as (r & Hr & Hkept').
    destruct (IH (w_dev r) (w_mem r) Hwf Hp Hreach Hn Hkept' Hws)
      as (rets & d2 & m2 & Hrun & Hkept2).
    exists (w_ret r :: rets), d2, m2. simpl. by rewrite Hr, Hrun.
Qed.

Lemma kept_read d pos bs d2 m room count :
  wf_dev d -> call_ok pos count ->
  len bs = Z.min count (dev_quantum d - off_of d pos) ->
  len bs <= room ->
  kept d pos bs d2 ->
  exists r, scull_read Acquired d2 m room count pos = Done r /\
    r_ret r = len bs /\ r_user r = bs /\ r_fpos r = pos + len bs.
Proof.
  intros Hwf Hcall Hlen Hroom (Hwf2 & Hq2 & Hs2 & Hsz & q & Hq & Hbytes).
  assert (seg_of d2 pos = seg_of d pos /\ slot_of d2 pos = slot_of d pos /\
          off_of d2 pos = off_of d pos) as (Eseg & Eslot & Eoff)
    by (unfold seg_of, slot_of, off_of; by rewrite Hq2, Hs2).
  assert (read_avail d2 pos count = len bs) as Havail.
  { unfold read_avail. rewrite Eoff, Hq2. unfold len in *. lia. }
  destruct (scull_read_hit d2 m room count pos q Hwf2 Hcall) as (r & Hr & R1 & R2 & R3).
  { unfold len in *. lia. }
  { by rewrite Eseg, Eslot. }
  { by rewrite Havail. }
  exists r. split; [exact Hr |]. rewrite Havail in *. rewrite Eoff in R2.
  split; [done |]. split; [| done].
  rewrite R2. apply list_eq. intros i.
  destruct (decide (i < length bs)%nat) as [Hi | Hi].
  - rewrite lookup_take_lt by (unfold len; lia).
    rewrite lookup_drop. by apply Hbytes.
  - rewrite lookup_take_ge by (unfold len; lia).
    symmetry. apply lookup_ge_None_2. lia.
Qed.

(** * The claims *)

(** ** Address translation *)

(** C5, as amended: the translations inlined in scull_read and in
    scull_write are the same function of [quantum], [qset] and the offset;
    for [quantum > 0], [qset > 0] and [pos >= 0] they yield the segment
    index [pos / itemsize], the slot [(pos mod itemsize) / quantum] and the
    offset [(pos mod itemsize) mod quantum] in the quantum, provided
    [itemsize = quantum * qset] and the segment index fit an [int]. *)
Theorem translate_agrees :
  (forall quantum qset pos,
     read_translate quantum qset pos = write_translate quantum qset pos) /\
  (forall quantum qset pos,
     0 <= pos <= LLONG_MAX -> 0 < quantum -> 0 < qset ->
     quantum * qset <= INT_MAX -> pos / (quantum * qset) <= INT_MAX ->
     read_translate quantum qset pos =
       Some (pos / (quantum * qset),
             (pos mod (quantum * qset)) / quantum,
             (pos mod (quantum * qset)) mod quantum)).
Proof.
  split; [exact read_write_translate |].
  intros quantum qset pos Hp Hq Hs Hi Hseg.
  rewrite read_write_translate, write_translate_pos by lia.
  rewrite to_int_small; [done |].
  assert (0 <= pos / (quantum * qset)) by (apply Z.div_pos; nia).
  lia.
Qed.

Lemma translate_agrees_witness :
  0 <= 8000123 <= LLONG_MAX /\ 0 < 4000 /\ 0 < 1000 /\
  4000 * 1000 <= INT_MAX /\ 8000123 / (4000 * 1000) <= INT_MAX /\
  read_translate 4000 1000 8000123 = Some (2, 0, 123).
Proof.
  assert (0 <= 8000123 <= LLONG_MAX) as H1 by (unfold LLONG_MAX; lia).
  assert (4000 * 1000 <= INT_MAX) as H2 by (unfold INT_MAX; lia).
  assert (8000123 / (4000 * 1000) <= INT_MAX) as H3
    by (intros H; vm_compute in H; discriminate H).
  repeat (split; [first [exact H2 | exact H3 | lia] |]).
  exact (proj2 translate_agrees 4000 1000 8000123 H1 eq_refl eq_refl H2 H3).
Defined.

(** C5 as stated fails: with the default sizes the offset
    [4000000 * 2^31] has segment index [2^31], which the [int] [item]
    holds as [-2^31]. *)
Lemma translate_wraps_counterexample :
  0 <= 8589934592000000 /\ 0 < 4000 /\ 0 < 1000 /\
  read_translate 4000 1000 8589934592000000 = Some (-2147483648, 0, 0) /\
  write_translate 4000 1000 8589934592000000 = Some (-2147483648, 0, 0) /\
  read_translate 4000 1000 8589934592000000 <>
    Some (8589934592000000 / (4000 * 1000),
          (8589934592000000 mod (4000 * 1000)) / 4000,
          (8589934592000000 mod (4000 * 1000)) mod 4000).
Proof.
  repeat (split; [lia |]). split; [vm_compute; reflexivity |].
  split; [vm_compute; reflexivity |].
  intros H. vm_compute in H. discriminate H.
Qed.

(** The product [quantum * qset] itself can wrap: for 65536 and 65536 it
    is 0 as an [int], and the translation divides by zero. *)
Example translate_itemsize_wraps : read_translate 65536 65536 5 = None.
Proof. vm_compute. reflexivity. Qed.

(** ** Reads past the end *)

(** C9: a read at an offset beyond [size] that gets the lock returns 0,
    stores nothing to the user buffer, and leaves [*f_pos], the device and
    the allocator as they were. *)
Theorem read_past_size d m room count pos :
  0 <= dev_size d -> dev_size d < pos -> pos <= LLONG_MAX ->
  scull_read Acquired d m room count pos =
    Done {| r_ret := 0; r_user := []; r_fpos := pos; r_dev := d; r_mem := m |}.
Proof.
  intros H0 Hlt Hmax. unfold scull_read.
  rewrite to_ulong_small by (unfold LLONG_MAX, ULONG_MAX in *; lia).
  by destruct (Z.ltb_spec (dev_size d) pos); [| lia].
Qed.

Lemma read_past_size_witness :
  0 <= dev_size (fresh_dev ex_params) /\ dev_size (fresh_dev ex_params) < 5 /\
  5 <= LLONG_MAX /\
  scull_read Acquired (fresh_dev ex_params) mem_always 16 3 5 =
    Done {| r_ret := 0; r_user := []; r_fpos := 5;
            r_dev := fresh_dev ex_params; r_mem := mem_always |}.
Proof.
  assert (0 <= dev_size (fresh_dev ex_params)) as H1 by (simpl; lia).
  assert (dev_size (fresh_dev ex_params) < 5) as H2 by (simpl; lia).
  assert (5 <= LLONG_MAX) as H3 by (unfold LLONG_MAX; lia).
  repeat (split; [assumption |]).
  exact (read_past_size (fresh_dev ex_params) mem_always 16 3 5 H1 H2 H3).
Defined.

(** ** One call, one quantum *)

Lemma translate_of_dev d pos :
  wf_dev d -> 0 <= pos <= LLONG_MAX ->
  write_translate (dev_quantum d) (dev_qset d) pos =
    Some (to_int (pos / (dev_quantum d * dev_qset d)),
          (pos mod (dev_quantum d * dev_qset d)) / dev_quantum d,
          off_of d pos).
Proof.
  intros Hwf Hp. apply wf_dev_spec in Hwf as ((Hq & Hs & Hi) & _).
  by apply write_translate_pos.
Qed.

(** C7: on a well-formed device, a call of scull_read or scull_write at an
    offset that translates to the offset [q_pos] in the quantum moves at
    most [quantum - q_pos] bytes; a read moves no more than lies between
    the offset and [size] and no more than asked for, a write no more than
    the length of the source.  The cursor advances by the bytes moved, and
    a write changes no byte outside that part of that quantum. *)
Theorem transfer_within_quantum d m lk room ubuf count pos :
  wf_dev d -> call_ok pos count ->
  exists item s_pos q_pos,
    read_translate (dev_quantum d) (dev_qset d) pos = Some (item, s_pos, q_pos) /\
    write_translate (dev_quantum d) (dev_qset d) pos = Some (item, s_pos, q_pos) /\
    (pos <= dev_size d ->
     exists r, scull_read lk d m room count pos = Done r /\
       (r_ret r <= dev_quantum d - q_pos /\
        r_ret r <= dev_size d - pos /\
        r_ret r <= count) /\
       (len (r_user r) <= dev_quantum d - q_pos /\
        len (r_user r) <= dev_size d - pos /\
        len (r_user r) <= count) /\
       r_fpos r = pos + Z.max 0 (r_ret r)) /\
    (exists r, scull_write lk d m ubuf count pos = Done r /\
       w_ret r <= dev_quantum d - q_pos /\
       w_ret r <= count /\
       w_fpos r = pos + Z.max 0 (w_ret r) /\
       write_frame d (w_dev r) pos (Z.min count (dev_quantum d - q_pos))).
Proof.
  intros Hwf Hcall. pose proof Hcall as (Hp & Hc & Hpc).
  destruct (xfer_bounds d pos count Hwf Hc) as (Hoff & Hx0 & Hxc & Hxq).
  eexists _, _, _. rewrite read_write_translate.
  split; [apply translate_of_dev; [done | lia] |].
  split; [apply translate_of_dev; [done | lia] |].
  split.
  - intros Hin. destruct lk.
    2: { eexists. split; [reflexivity |]. simpl. unfold len, ERESTARTSYS. simpl. lia. }
    destruct (scull_read_post d m room count pos Hwf Hcall) as (r & Hr & _ & _ & Hpost).
    exists r. split; [exact Hr |].
    destruct (Z.ltb_spec (dev_size d) pos) as [? | _]; [lia |].
    destruct Hpost as [_ Hpost].
    destruct (get_quantum (dev_data d) (seg_of d pos) (slot_of d pos)) as [q |].
    + simpl in Hpost. unfold read_avail in Hpost.
      destruct (Z.ltb_spec room
                  (Z.min (Z.min count (dev_size d - pos)) (dev_quantum d - off_of d pos)));
        destruct Hpost as (-> & -> & ->); unfold len, EFAULT;
        rewrite ?length_take, ?length_drop; lia.
    + destruct Hpost as (-> & -> & ->). unfold len. simpl. lia.
  - destruct (scull_write_post d ubuf count pos Hwf Hcall lk m)
      as (r & Hr & _ & _ & Hframe & Hcase).
    exists r. split; [exact Hr |].
    destruct Hcase as [(R1 & R2 & _) | (R1 & R2 & _)]; rewrite R2.
    + repeat (split; [lia |]). done.
    + rewrite R1. repeat (split; [lia |]). done.
Qed.

Lemma transfer_within_quantum_witness :
  wf_dev ex_dev8 /\ call_ok 2 4 /\
  exists item s_pos q_pos,
    read_translate 4 2 2 = Some (item, s_pos, q_pos) /\
    write_translate 4 2 2 = Some (item, s_pos, q_pos) /\
    (2 <= 8 ->
     exists r, scull_read Acquired ex_dev8 mem_always 16 4 2 = Done r /\
       (r_ret r <= 4 - q_pos /\ r_ret r <= 8 - 2 /\ r_ret r <= 4) /\
       (len (r_user r) <= 4 - q_pos /\ len (r_user r) <= 8 - 2 /\
        len (r_user r) <= 4) /\
       r_fpos r = 2 + Z.max 0 (r_ret r)) /\
    (exists r, scull_write Acquired ex_dev8 mem_always (bytes_of "WXYZ") 4 2 = Done r /\
       w_ret r <= 4 - q_pos /\ w_ret r <= 4 /\
       w_fpos r = 2 + Z.max 0 (w_ret r) /\
       write_frame ex_dev8 (w_dev r) 2 (Z.min 4 (4 - q_pos))).
Proof.
  assert (wf_dev ex_dev8) as H1 by reflexivity.
  assert (call_ok 2 4) as H2 by (unfold call_ok, LLONG_MAX; lia).
  split; [exact H1 |]. split; [exact H2 |].
  exact (transfer_within_quantum ex_dev8 mem_always Acquired 16
           (bytes_of "WXYZ") 4 2 H1 H2).
Defined.

(** The example of the text, run: one call stores "ABCD" only, and the
    read of 4 bytes at offset 2 stops at the end of the first quantum. *)
Example ex_write_abcdefgh :
  run_writes (fresh_dev ex_params) mem_always
    [ex_write "ABCDEFGH" 0; ex_write "EFGH" 4]
  = Done ([4; 4], ex_dev8, {| kz_ok := kz_ok mem_always; kz_calls := 4 |}).
Proof. vm_compute. reflexivity. Qed.

Example ex_read_cd :
  scull_read Acquired ex_dev8 mem_always 16 4 2
  = Done {| r_ret := 2; r_user := bytes_of "CD"; r_fpos := 4;
            r_dev := ex_dev8; r_mem := mem_always |}.
Proof. vm_compute. reflexivity. Qed.

(** ** Allocation failures *)

(** C2, on the code: the first allocation of scull_follow is refused, for
    a write of one byte at offset 0 to a fresh device, and scull_write
    returns 0, not [-ENOMEM]. *)
Theorem write_no_segment_returns_zero :
  scull_write Acquired (fresh_dev ex_params) mem_never (bytes_of "A") 1 0
  = Done {| w_ret := 0; w_fpos := 0; w_dev := fresh_dev ex_params;
            w_mem := {| kz_ok := kz_ok mem_never; kz_calls := 1 |} |}.
Proof. vm_compute. reflexivity. Qed.

(** Whenever scull_follow returns [NULL], the value returned is 0. *)
Lemma write_follow_null d m ubuf count pos item s_pos q_pos chain m1 :
  write_translate (dev_quantum d) (dev_qset d) pos = Some (item, s_pos, q_pos) ->
  scull_follow (dev_data d) item m = (None, chain, m1) ->
  scull_write Acquired d m ubuf count pos
  = Done {| w_ret := 0; w_fpos := pos; w_dev := set_data d chain; w_mem := m1 |}.
Proof. intros Ht Hf. unfold scull_write. by rewrite Ht, Hf. Qed.

(** The two allocations that scull_write makes itself do report
    [-ENOMEM]: the slot array (the node is granted, the array refused) and
    the quantum (node and array granted, the quantum refused). *)
Example write_no_array_enomem :
  exists r, scull_write Acquired (fresh_dev ex_params) (mem_first 1) (bytes_of "A") 1 0
            = Done r /\ w_ret r = - ENOMEM.
Proof. eexists. split; vm_compute; reflexivity. Qed.

Example write_no_quantum_enomem :
  exists r, scull_write Acquired (fresh_dev ex_params) (mem_first 2) (bytes_of "A") 1 0
            = Done r /\ w_ret r = - ENOMEM.
Proof. eexists. split; vm_compute; reflexivity. Qed.

(** ** The device table *)

(** C4, on the code: whatever [scull_num_devs] is, a load in which every
    kernel service succeeds reserves 4 minors and sets up a table of 4
    devices. *)
Theorem scull_init_table_of_four n :
  exists drv, scull_init (params_with_devs n) init_env_ok = Done (0, drv) /\
    drv_devices drv = Some (replicate 4 (fresh_dev default_params)) /\
    drv_region drv = Some (250, 0, 4) /\
    drv_cdevs drv = [0; 1; 2; 3] /\
    scull_num_devs (drv_params drv) = n.
Proof. eexists. split; [vm_compute; reflexivity |]. repeat split. Qed.

(** scull_cleanup does walk [scull_num_devs] devices: with 8 configured it
    runs off the table of 4. *)
Example scull_cleanup_eight :
  exists drv, scull_init (params_with_devs 8) init_env_ok = Done (0, drv) /\
    scull_cleanup drv = Oops.
Proof. eexists. split; vm_compute; reflexivity. Qed.

Example scull_cleanup_four :
  exists drv, scull_init (params_with_devs 4) init_env_ok = Done (0, drv) /\
    scull_cleanup drv
    = Done {| drv_params := drv_params drv; drv_region := None;
              drv_devices := None; drv_cdevs := [] |}.
Proof. eexists. split; vm_compute; reflexivity. Qed.

(** ** The worked example: a read below [size] of bytes never written *)

Example ex_write_z :
  run_writes ex_dev8 mem_always [ex_write "Z" 10]
  = Done ([1], ex_dev11, {| kz_ok := kz_ok mem_always; kz_calls := 3 |}).
Proof. vm_compute. reflexivity. Qed.

Example ex_write_z_short :
  run_writes (fresh_dev ex_params) mem_always
    [ex_write "ABCDEFGH" 0; ex_write "Z" 10]
  = Done ([4; 1], ex_dev11_short, {| kz_ok := kz_ok mem_always; kz_calls := 6 |}).
Proof. vm_compute. reflexivity. Qed.

(** C3 as stated fails: after "ABCDEFGH" is written at offset 0 (two
    calls, [size] is 8) and "Z" at offset 10, the read of one byte at
    offset 8 does not return 0. *)
Lemma hole_read_counterexample :
  run_writes (fresh_dev ex_params) mem_always
    [ex_write "ABCDEFGH" 0; ex_write "EFGH" 4]
  = Done ([4; 4], ex_dev8, {| kz_ok := kz_ok mem_always; kz_calls := 4 |}) /\
  dev_size ex_dev8 = 8 /\
  run_writes ex_dev8 mem_always [ex_write "Z" 10]
  = Done ([1], ex_dev11, {| kz_ok := kz_ok mem_always; kz_calls := 3 |}) /\
  ~ (exists r, scull_read Acquired ex_dev11 mem_always 1 1 8 = Done r /\
               r_ret r = 0 /\ r_user r = []).
Proof.
  split; [vm_compute; reflexivity |]. split; [reflexivity |].
  split; [vm_compute; reflexivity |].
  intros (r & Hr & Hret & _). vm_compute in Hr.
  injection Hr as <-. discriminate Hret.
Qed.

(** C3, as amended: with [quantum = 4] and [qset = 2], after "ABCDEFGH" is
    written at offset 0 ([size] is 8 once both quanta are stored) and "Z" at
    offset 10 ([size] is 11), a read of one byte at offset 8 into a buffer
    with room for it returns 1 and delivers the zero byte of the quantum
    the second write allocated; it does not fail with [-EFAULT].  The same
    holds when only the first call of the first write was made. *)
Theorem hole_read_zero_byte m room :
  1 <= room ->
  (exists m8 m11,
     run_writes (fresh_dev ex_params) mem_always
       [ex_write "ABCDEFGH" 0; ex_write "EFGH" 4] = Done ([4; 4], ex_dev8, m8) /\
     dev_size ex_dev8 = 8 /\
     run_writes ex_dev8 m8 [ex_write "Z" 10] = Done ([1], ex_dev11, m11) /\
     dev_size ex_dev11 = 11 /\
     exists r, scull_read Acquired ex_dev11 m room 1 8 = Done r /\
       r_ret r = 1 /\ r_user r = [x00] /\ r_fpos r = 9) /\
  (exists m11,
     run_writes (fresh_dev ex_params) mem_always
       [ex_write "ABCDEFGH" 0; ex_write "Z" 10] = Done ([4; 1], ex_dev11_short, m11) /\
     exists r, scull_read Acquired ex_dev11_short m room 1 8 = Done r /\
       r_ret r = 1 /\ r_user r = [x00] /\ r_fpos r = 9).
Proof.
  intros Hroom.
  assert (call_ok 8 1) as Hcall by (unfold call_ok, LLONG_MAX; lia).
  split.
  - eexists _, _. split; [vm_compute; reflexivity |]. split; [reflexivity |].
    split; [vm_compute; reflexivity |]. split; [reflexivity |].
    destruct (scull_read_hit ex_dev11 m room 1 8 [x00; x00; "Z"%byte; x00])
      as (r & Hr & H1 & H2 & H3);
      [vm_compute; reflexivity | exact Hcall | simpl; lia
      | vm_compute; reflexivity | exact Hroom |].
    exists r. split; [exact Hr |]. rewrite H1, H2, H3.
    split; [| split]; vm_compute; reflexivity.
  - eexists. split; [vm_compute; reflexivity |].
    destruct (scull_read_hit ex_dev11_short m room 1 8 [x00; x00; "Z"%byte; x00])
      as (r & Hr & H1 & H2 & H3);
      [vm_compute; reflexivity | exact Hcall | simpl; lia
      | vm_compute; reflexivity | exact Hroom |].
    exists r. split; [exact Hr |]. rewrite H1, H2, H3.
    split; [| split]; vm_compute; reflexivity.
Qed.

Lemma hole_read_zero_byte_witness :
  1 <= 1 /\
  exists r, scull_read Acquired ex_dev11 mem_always 1 1 8 = Done r /\
    r_ret r = 1 /\ r_user r = [x00] /\ r_fpos r = 9.
Proof.
  assert (1 <= 1) as H by lia.
  split; [exact H |].
  destruct (proj1 (hole_read_zero_byte mem_always 1 H))
    as (_ & _ & _ & _ & _ & _ & Hr).
  exact Hr.
Defined.

(** ** Trim *)

(** C6: on every well-formed device, whatever its own [quantum] and
    [qset] are, scull_trim returns 0 and leaves the device with [size] 0, no
    node and so no quantum, and [quantum] and [qset] equal to the module
    parameters; when those are workable sizes, a read at offset 0 that
    follows, of any length, returns 0, delivers nothing and leaves the
    cursor at 0. *)
Theorem trim_resets p d :
  wf_dev d ->
  exists d', scull_trim p d = Done (0, d') /\
    dev_size d' = 0 /\ dev_data d' = [] /\
    (forall n s, get_quantum (dev_data d') n s = None) /\
    dev_quantum d' = scull_quantum p /\ dev_qset d' = scull_qset p /\
    (sizes_okb (scull_quantum p) (scull_qset p) = true ->
     forall m room count, 0 <= count <= LLONG_MAX ->
       exists r, scull_read Acquired d' m room count 0 = Done r /\
         r_ret r = 0 /\ r_user r = [] /\ r_fpos r = 0).
Proof.
  intros Hwf.
  exists (fresh_dev p). split; [by apply scull_trim_wf |].
  split; [done |]. split; [done |]. split; [done |]. split; [done |].
  split; [done |].
  intros Hp m room count Hc.
  apply scull_read_hole; [by apply fresh_dev_wf | | simpl; lia | done].
  unfold call_ok. lia.
Qed.

(** The device holds 8 bytes in quanta of 4 with [qset = 2]; the module
    parameters are 4000 and 1000. *)
Lemma trim_resets_witness :
  wf_dev ex_dev8 /\
  dev_quantum ex_dev8 <> scull_quantum default_params /\
  dev_qset ex_dev8 <> scull_qset default_params /\
  sizes_okb (scull_quantum default_params) (scull_qset default_params) = true /\
  exists d', scull_trim default_params ex_dev8 = Done (0, d') /\
    dev_size d' = 0 /\ dev_data d' = [] /\
    (forall n s, get_quantum (dev_data d') n s = None) /\
    dev_quantum d' = 4000 /\ dev_qset d' = 1000 /\
    forall m room count, 0 <= count <= LLONG_MAX ->
      exists r, scull_read Acquired d' m room count 0 = Done r /\
        r_ret r = 0 /\ r_user r = [] /\ r_fpos r = 0.
Proof.
  assert (wf_dev ex_dev8) as H1 by reflexivity.
  assert (sizes_okb (scull_quantum default_params) (scull_qset default_params)
          = true) as H2 by reflexivity.
  split; [exact H1 |]. split; [simpl; lia |]. split; [simpl; lia |].
  split; [exact H2 |].
  destruct (trim_resets default_params ex_dev8 H1)
    as (d' & E1 & E2 & E3 & E4 & E5 & E6 & Hread).
  exists d'. split; [exact E1 |]. split; [exact E2 |]. split; [exact E3 |].
  split; [exact E4 |]. split; [exact E5 |]. split; [exact E6 |].
  exact (Hread H2).
Defined.

(** The same on every state the driver's calls reach, where the device's
    sizes are already the module's. *)
Corollary reachable_trim p d :
  sizes_okb (scull_quantum p) (scull_qset p) = true ->
  reachable p d ->
  scull_trim p d = Done (0, fresh_dev p).
Proof. intros Hp Hreach. apply scull_trim_wf. by eapply reachable_wf. Qed.

(** ** Reads allocate *)



(** Such a read, run: the chain of one node has two after it. *)
Example ex_read_links :
  scull_read Acquired ex_dev8 mem_always 16 1 8
  = Done {| r_ret := 0; r_user := []; r_fpos := 8;
            r_dev := set_data ex_dev8 (dev_data ex_dev8 ++ [empty_qset]);
            r_mem := {| kz_ok := kz_ok mem_always; kz_calls := 1 |} |}.
Proof. vm_compute. reflexivity. Qed.

(** A read right after a trim links the head node. *)
Example ex_read_after_trim :
  scull_read Acquired (fresh_dev ex_params) mem_always 16 1 0
  = Done {| r_ret := 0; r_user := []; r_fpos := 0;
            r_dev := set_data (fresh_dev ex_params) [empty_qset];
            r_mem := {| kz_ok := kz_ok mem_always; kz_calls := 1 |} |}.
Proof. vm_compute. reflexivity. Qed.

(** ** Size *)

(** C8: from a device of [size] 0, after any sequence of writes that
    nothing stops (the lock is taken, no allocation is refused, the user
    buffer is readable), [size] is the largest [offset + bytes written] over
    the sequence; and no call other than a trim lowers [size]: a read leaves
    it as it is, and so does a write that returns an error. *)
Theorem size_is_high_water :
  (forall d m ws,
     wf_dev d -> dev_size d = 0 -> mem_good m -> Forall wcall_clean ws ->
     exists rets d' m', run_writes d m ws = Done (rets, d', m') /\
       length rets = length ws /\
       Forall (fun ret => 0 <= ret) rets /\
       dev_size d' = high_water ws rets) /\
  (forall p o d m,
     wf_dev d -> op_ok o ->
     exists ret d' m', step p o d m = Done (ret, d', m') /\
       (trims o = false -> dev_size d <= dev_size d') /\
       match o with
       | OpRead _ _ _ _ => dev_size d' = dev_size d
       | OpWrite _ _ _ _ => ret < 0 -> dev_size d' = dev_size d
       | _ => True
       end).
Proof.
  split.
  - intros d m ws Hwf Hsize G Hws.
    destruct (run_writes_clean ws d m Hwf G Hws)
      as (rets & d' & m' & Hrun & Hlen & Hpos & Hmax).
    exists rets, d', m'. repeat (split; [done |]).
    rewrite Hmax, Hsize. apply Z.max_r.
    unfold high_water. clear. generalize (zip_with (fun w ret => wc_pos w + ret) ws rets).
    intros l. induction l; simpl; lia.
  - intros p o d m. apply step_size.
Qed.

Lemma mem_always_good : mem_good mem_always.
Proof. intros k _. reflexivity. Qed.

Lemma size_is_high_water_witness :
  wf_dev (fresh_dev ex_params) /\ dev_size (fresh_dev ex_params) = 0 /\
  mem_good mem_always /\
  Forall wcall_clean [ex_write "Z" 10; ex_write "ABCDEFGH" 0; ex_write "EFGH" 4] /\
  exists rets d' m',
    run_writes (fresh_dev ex_params) mem_always
      [ex_write "Z" 10; ex_write "ABCDEFGH" 0; ex_write "EFGH" 4]
    = Done (rets, d', m') /\
    length rets = 3%nat /\
    Forall (fun ret => 0 <= ret) rets /\
    dev_size d' = high_water [ex_write "Z" 10; ex_write "ABCDEFGH" 0; ex_write "EFGH" 4] rets.
Proof.
  assert (wf_dev (fresh_dev ex_params)) as H1 by reflexivity.
  assert (dev_size (fresh_dev ex_params) = 0) as H2 by reflexivity.
  assert (Forall wcall_clean
            [ex_write "Z" 10; ex_write "ABCDEFGH" 0; ex_write "EFGH" 4]) as H3.
  { repeat apply Forall_cons_2; try apply Forall_nil_2;
      (split; [reflexivity |]; split; [unfold call_ok, LLONG_MAX, len |];
       simpl; unfold len; simpl; lia). }
  split; [exact H1 |]. split; [exact H2 |]. split; [exact mem_always_good |].
  split; [exact H3 |].
  exact (proj1 size_is_high_water (fresh_dev ex_params) mem_always _
           H1 H2 mem_always_good H3).
Defined.

Example ex_high_water :
  exists d' m',
    run_writes (fresh_dev ex_params) mem_always
      [ex_write "Z" 10; ex_write "ABCDEFGH" 0; ex_write "EFGH" 4]
    = Done ([1; 4; 4], d', m') /\
    dev_size d' = 11 /\
    high_water [ex_write "Z" 10; ex_write "ABCDEFGH" 0; ex_write "EFGH" 4] [1; 4; 4] = 11.
Proof. eexists _, _. split; [vm_compute; reflexivity |]. split; vm_compute; reflexivity. Qed.

(** ** Write, then read *)

(** C1 as stated fails: one call of scull_write stores no more than the
    rest of the quantum, so after [write(dev, 0, "ABCDEFGH")] with
    [quantum = 4] the read of 8 bytes at offset 0 returns "ABCD". *)
Lemma write_read_counterexample :
  exists r1 r3,
    scull_write Acquired (fresh_dev ex_params) mem_always (bytes_of "ABCDEFGH") 8 0
      = Done r1 /\
    scull_read Acquired (w_dev r1) (w_mem r1) 8 8 0 = Done r3 /\
    r_ret r3 = 4 /\ r_user r3 = bytes_of "ABCD" /\
    r_user r3 <> bytes_of "ABCDEFGH".
Proof.
  eexists _, _. split; [vm_compute; reflexivity |].
  split; [vm_compute; reflexivity |].
  split; [vm_compute; reflexivity |]. split; [vm_compute; reflexivity |].
  vm_compute. discriminate.
Qed.

(** C1, as amended: on a well-formed device, for a write of [b] at an
    offset [pos] whose segment index fits an [int], made with the lock held
    and no allocation refused, the call stores the first
    [n = min (len b) (quantum - q_pos)] bytes of [b]; after any writes that
    stay clear of [pos .. pos + len b - 1], whatever their outcome (they
    run from any allocator [m1], so any of their allocations may be
    refused, with or without the lock, and with any user buffer), a read of
    [len b] bytes at [pos] into a buffer with room for [n] returns [n] and
    delivers exactly those [n] bytes: all of [b] when [b] does not run past
    the end of its quantum. *)
Theorem write_then_read d m b pos ws :
  wf_dev d -> call_ok pos (len b) -> reachable_pos d pos -> mem_good m ->
  Forall (wcall_apart d pos (len b)) ws ->
  exists r1,
    scull_write Acquired d m b (len b) pos = Done r1 /\
    w_ret r1 = Z.min (len b) (dev_quantum d - off_of d pos) /\
    forall m1, exists rets d2 m2,
      run_writes (w_dev r1) m1 ws = Done (rets, d2, m2) /\
      forall m3 room, w_ret r1 <= room ->
        exists r3, scull_read Acquired d2 m3 room (len b) pos = Done r3 /\
          r_ret r3 = w_ret r1 /\
          r_user r3 = take (Z.to_nat (w_ret r1)) b /\
          r_fpos r3 = pos + w_ret r1 /\
          (len b <= dev_quantum d - off_of d pos -> r_user r3 = b).
Proof.
  intros Hwf Hcall Hreach G Hws. pose proof Hcall as (Hp & Hc & Hpc).
  destruct (xfer_bounds d pos (len b) Hwf Hc) as (Hoff & Hx0 & Hxc & Hxq).
  destruct (scull_write_clean d m b (len b) pos Hwf Hcall G Hxc)
    as (r1 & Hr1 & Hwf1 & G1 & (Fq & Fs & _) & (R1 & R2 & R3 & q' & Hq' & Hbytes)).
  set (n := xfer d pos (len b)) in *.
  set (bs := take (Z.to_nat n) b).
  assert (len bs = n) as Hlen by (unfold bs, len in *; rewrite length_take; lia).
  assert (kept d pos bs (w_dev r1)) as Hkept.
  { split; [exact Hwf1 |]. split; [exact Fq |]. split; [exact Fs |].
    split; [lia |]. exists q'. split; [exact Hq' |].
    intros k Hk. unfold bs. rewrite lookup_take_lt by (unfold len in *; lia).
    apply Hbytes. unfold len in *. lia. }
  exists r1. split; [exact Hr1 |]. split; [exact R1 |]. intros m1.
  destruct (kept_run d pos bs (len b) ws (w_dev r1) m1 Hwf Hp Hreach)
    as (rets & d2 & m2 & Hrun & Hkept2); [lia | exact Hkept | exact Hws |].
  exists rets, d2, m2. split; [exact Hrun |].
  intros m3 room Hroom. rewrite R1 in *. fold (xfer d pos (len b)) in *. fold n in Hroom.
  destruct (kept_read d pos bs d2 m3 room (len b) Hwf Hcall) as (r3 & Hr3 & E1 & E2 & E3);
    [by rewrite Hlen | lia | exact Hkept2 |].
  exists r3. split; [exact Hr3 |]. rewrite E1, E2, E3, Hlen. fold n.
  split; [done |]. split; [done |]. split; [done |].
  intros Hfits. unfold bs. apply take_ge. unfold n, xfer, len in *. lia.
Qed.

Lemma write_then_read_witness :
  let b := bytes_of "IJKLMN" in
  let ws := [ {| wc_lock := Interrupted; wc_buf := bytes_of "Q";
                 wc_count := 1; wc_pos := 4 |};
              ex_write "Z" 14; ex_write "Y" 16; ex_write "ab" 2;
              {| wc_lock := Acquired; wc_buf := []; wc_count := 3; wc_pos := 5 |} ] in
  wf_dev ex_dev8 /\ call_ok 8 (len b) /\
  reachable_pos ex_dev8 8 /\ mem_good mem_always /\
  Forall (wcall_apart ex_dev8 8 (len b)) ws /\
  exists r1,
    scull_write Acquired ex_dev8 mem_always b (len b) 8 = Done r1 /\
    w_ret r1 = Z.min (len b) (dev_quantum ex_dev8 - off_of ex_dev8 8) /\
    forall m1, exists rets d2 m2,
      run_writes (w_dev r1) m1 ws = Done (rets, d2, m2) /\
      forall m3 room, w_ret r1 <= room ->
        exists r3, scull_read Acquired d2 m3 room (len b) 8 = Done r3 /\
          r_ret r3 = w_ret r1 /\
          r_user r3 = take (Z.to_nat (w_ret r1)) b /\
          r_fpos r3 = 8 + w_ret r1 /\
          (len b <= dev_quantum ex_dev8 - off_of ex_dev8 8 -> r_user r3 = b).
Proof.
  intros b ws.
  assert (wf_dev ex_dev8) as H1 by reflexivity.
  assert (call_ok 8 (len b)) as H2
    by (unfold call_ok, LLONG_MAX, len; simpl; lia).
  assert (forall x, 0 <= x <= 100 -> reachable_pos ex_dev8 x) as Hreach.
  { intros x Hx. unfold reachable_pos, INT_MAX. simpl.
    apply Z.div_le_upper_bound; lia. }
  assert (reachable_pos ex_dev8 8) as H3 by (apply Hreach; lia).
  assert (Forall (wcall_apart ex_dev8 8 (len b)) ws) as H4.
  { repeat apply Forall_cons_2; try apply Forall_nil_2;
      (split; [unfold ex_write, call_ok, LLONG_MAX, len; simpl; lia |];
       split; [apply Hreach; simpl; lia | unfold ex_write, len; simpl; lia]). }
  split; [exact H1 |]. split; [exact H2 |]. split; [exact H3 |].
  split; [exact mem_always_good |]. split; [exact H4 |].
  exact (write_then_read ex_dev8 mem_always b 8 ws
           H1 H2 H3 mem_always_good H4).
Defined.

(** Such a round trip, run: of "IJKLMN" written at offset 8, "IJKL" comes back. *)
Example ex_round_trip :
  exists r1 rets d2 m2 r3,
    scull_write Acquired ex_dev8 mem_always (bytes_of "IJKLMN") 6 8 = Done r1 /\
    w_ret r1 = 4 /\
    run_writes (w_dev r1) (w_mem r1) [ex_write "Z" 14; ex_write "ab" 2]
      = Done (rets, d2, m2) /\
    scull_read Acquired d2 m2 6 6 8 = Done r3 /\
    r_ret r3 = 4 /\ r_user r3 = bytes_of "IJKL".
Proof.
  eexists _, _, _, _, _. split; [vm_compute; reflexivity |].
  split; [vm_compute; reflexivity |]. split; [vm_compute; reflexivity |].
  split; [vm_compute; reflexivity |]. split; vm_compute; reflexivity.
Qed.

(** The same with every intervening allocation refused and one call
    interrupted: the write at 14 needs a quantum and returns [-ENOMEM], the
    write at 16 needs a node and returns 0, the write at 2 needs nothing
    and stores its 2 bytes; "IJKL" still comes back. *)
Example ex_round_trip_refused :
  exists r1 rets d2 m2 r3,
    scull_write Acquired ex_dev8 mem_always (bytes_of "IJKLMN") 6 8 = Done r1 /\
    run_writes (w_dev r1) mem_never
      [ {| wc_lock := Interrupted; wc_buf := bytes_of "Q";
           wc_count := 1; wc_pos := 4 |};
        ex_write "Z" 14; ex_write "Y" 16; ex_write "ab" 2 ]
      = Done (rets, d2, m2) /\
    rets = [- ERESTARTSYS; - ENOMEM; 0; 2] /\
    scull_read Acquired d2 m2 6 6 8 = Done r3 /\
    r_ret r3 = 4 /\ r_user r3 = bytes_of "IJKL".
Proof.
  eexists _, _, _, _, _. split; [vm_compute; reflexivity |].
  split; [vm_compute; reflexivity |]. split; [vm_compute; reflexivity |].
  split; [vm_compute; reflexivity |]. split; vm_compute; reflexivity.
Qed.

(** Why the offsets are kept to segment indexes that fit an [int]: with
    [itemsize = 8] the offset [8 * 2^32] has the segment index [2^32],
    which [item] holds as 0, so a write there lands on offset 0. *)
Example ex_far_write_lands_on_zero :
  exists rets d2 m2 r,
    run_writes (fresh_dev ex_params) mem_always
      [ex_write "ABCD" 0; ex_write "X" 34359738368] = Done (rets, d2, m2) /\
    rets = [4; 1] /\
    scull_read Acquired d2 m2 4 4 0 = Done r /\
    r_ret r = 4 /\ r_user r = bytes_of "XBCD".
Proof.
  eexists _, _, _, _. split; [vm_compute; reflexivity |].
  split; [reflexivity |]. split; [vm_compute; reflexivity |].
  split; vm_compute; reflexivity.
Qed.

(** * Further properties *)

(** ** scull_follow: what it allocates *)

Lemma follow_loop_within k : forall i chain m,
  (i + k < length chain)%nat ->
  follow_loop k i chain m = (Some (i + k)%nat, chain, m).
Proof.
  induction k as [| k IH]; intros i chain m Hlt; simpl.
  - do 3 f_equal. lia.
  - destruct (Nat.ltb_spec (S i) (length chain)); [| lia].
    rewrite IH by lia. do 3 f_equal. lia.
Qed.

Lemma follow_loop_exact k : forall i chain m,
  (i < length chain)%nat -> mem_good m ->
  follow_loop k i chain m =
    (Some (i + k)%nat,
     chain ++ replicate (S (i + k) - length chain) empty_qset,
     {| kz_ok := kz_ok m;
        kz_calls := kz_calls m + (S (i + k) - length chain) |}).
Proof.
  induction k as [| k IH]; intros i chain m Hi G; simpl.
  - replace (S (i + 0) - length chain)%nat with 0%nat by lia.
    rewrite app_nil_r, !Nat.add_0_r. by destruct m.
  - destruct (Nat.ltb_spec (S i) (length chain)) as [Hlt | Hge].
    + rewrite IH by done. do 3 f_equal; [lia | f_equal; lia |].
      f_equal. lia.
    + rewrite (G (kz_calls m)) by lia.
      rewrite IH; [| rewrite length_app; simpl; lia
                   | exact (mem_good_le _ _ G (kzalloc_le m))].
      rewrite length_app. simpl.
      replace (S (i + S k) - length chain)%nat with (S k) by lia.
      replace (S (S (i + k)) - (length chain + 1))%nat with k by lia.
      rewrite <- app_assoc. simpl.
      do 3 f_equal; [lia |]. f_equal. lia.
Qed.

Lemma follow_loop_fail k : forall i chain m chain' m',
  (i < length chain)%nat ->
  follow_loop k i chain m = (None, chain', m') ->
  exists j, chain' = chain ++ replicate j empty_qset /\
    (length chain' <= i + k)%nat /\
    kz_ok m' = kz_ok m /\ kz_calls m' = (kz_calls m + S j)%nat /\
    kz_ok m (kz_calls m + j)%nat = false.
Proof.
  induction k as [| k IH]; intros i chain m chain' m' Hi Hf; simpl in Hf; [done |].
  destruct (Nat.ltb_spec (S i) (length chain)) as [Hlt | Hge].
  - destruct (IH _ _ _ _ _ Hlt Hf) as (j & -> & Hlen & Hok & Hcalls & Hfail).
    exists j. repeat split; try done. lia.
  - destruct (kz_ok m (kz_calls m)) eqn:Hgrant.
    + apply IH in Hf; [| rewrite length_app; simpl; lia].
      destruct Hf as (j & -> & Hlen & Hok & Hcalls & Hfail). simpl in *.
      exists (S j). rewrite <- app_assoc. simpl.
      split; [done |]. split; [rewrite <- app_assoc in Hlen; simpl in Hlen; lia |].
      split; [done |]. split; [lia |].
      by replace (kz_calls m + S j)%nat with (S (kz_calls m) + j)%nat by lia.
    + injection Hf as <- <-. exists 0%nat. simpl.
      rewrite app_nil_r, Nat.add_0_r. repeat split; try done; lia.
Qed.

Lemma scull_follow_fail chain n m chain1 m1 :
  scull_follow chain n m = (None, chain1, m1) ->
  exists j, chain1 = chain ++ replicate j empty_qset /\
    (length chain1 <= follow_steps n)%nat /\
    kz_calls m1 = (kz_calls m + S j)%nat.
Proof.
  intros Hf. unfold scull_follow in Hf. destruct chain as [| hd tl].
  - simpl in Hf. destruct (kz_ok m (kz_calls m)) eqn:Hgrant.
    + apply follow_loop_fail in Hf; [| simpl; lia].
      destruct Hf as (j & -> & Hlen & _ & Hcalls & _). simpl in *.
      exists (S j). split; [done |]. split; [lia | lia].
    + injection Hf as <- <-. exists 0%nat. simpl. split; [done |].
      split; lia.
  - apply follow_loop_fail in Hf; [| simpl; lia].
    destruct Hf as (j & -> & Hlen & _ & Hcalls & _).
    exists j. split; [done |]. split; [lia | done].
Qed.

(** X1: when the node of index [n] is already in the chain, scull_follow
    returns it and allocates nothing, whatever the allocator would answer:
    the chain and the allocator are as they were. *)
Theorem follow_existing chain n m :
  (follow_steps n < length chain)%nat ->
  scull_follow chain n m = (Some (follow_steps n), chain, m).
Proof.
  intros Hlt. unfold scull_follow. destruct chain as [| hd tl]; [simpl in Hlt; lia |].
  by rewrite follow_loop_within.
Qed.

Lemma follow_existing_witness :
  (follow_steps 0 < length (dev_data ex_dev11))%nat /\
  scull_follow (dev_data ex_dev11) 0 mem_never
  = (Some (follow_steps 0), dev_data ex_dev11, mem_never).
Proof.
  assert (follow_steps 0 < length (dev_data ex_dev11))%nat as H
    by (vm_compute; lia).
  split; [exact H |]. exact (follow_existing (dev_data ex_dev11) 0 mem_never H).
Defined.

Lemma scull_follow_good chain n m :
  mem_good m ->
  scull_follow chain n m =
    (Some (follow_steps n),
     chain ++ replicate (S (follow_steps n) - length chain) empty_qset,
     {| kz_ok := kz_ok m;
        kz_calls := kz_calls m + (S (follow_steps n) - length chain) |}).
Proof.
  intros G. unfold scull_follow. destruct chain as [| hd tl].
  - simpl. rewrite (G (kz_calls m)) by lia.
    rewrite follow_loop_exact;
      [| simpl; lia | exact (mem_good_le _ _ G (kzalloc_le m))].
    simpl. rewrite !Nat.sub_0_r.
    replace (kz_calls m + S (follow_steps n))%nat
      with (S (kz_calls m + follow_steps n)) by lia.
    done.
  - rewrite follow_loop_exact by (simpl; lia || done). done.
Qed.



(** X3: when scull_follow returns [NULL], the nodes it linked before the
    refusal stay at the end of the chain and the node asked for is still
    missing; asking again once memory is available completes the chain to
    what an undisturbed call would have built, without a node more. *)
Theorem follow_retry chain n m chain1 m1 m2 :
  scull_follow chain n m = (None, chain1, m1) ->
  mem_good m2 ->
  (exists j, chain1 = chain ++ replicate j empty_qset /\
     (length chain1 <= follow_steps n)%nat /\
     kz_calls m1 = (kz_calls m + S j)%nat) /\
  exists m3, scull_follow chain1 n m2 =
    (Some (follow_steps n),
     chain ++ replicate (S (follow_steps n) - length chain) empty_qset, m3).
Proof.
  intros Hf G.
  pose proof (scull_follow_fail chain n m chain1 m1 Hf) as Hpart.
  split; [exact Hpart |].
  destruct Hpart as (j & -> & Hlen & _).
  eexists. rewrite scull_follow_good by done.
  rewrite length_app, length_replicate in *.
  rewrite <- app_assoc, <- replicate_add.
  replace (j + (S (follow_steps n) - (length chain + j)))%nat
    with (S (follow_steps n) - length chain)%nat by lia.
  reflexivity.
Qed.

Lemma follow_retry_witness :
  scull_follow (dev_data ex_dev8) 3 (mem_first 2)
  = (None, dev_data ex_dev8 ++ replicate 2 empty_qset,
     {| kz_ok := kz_ok (mem_first 2); kz_calls := 3 |}) /\
  mem_good mem_always /\
  exists m3, scull_follow (dev_data ex_dev8 ++ replicate 2 empty_qset) 3 mem_always =
    (Some (follow_steps 3),
     dev_data ex_dev8
       ++ replicate (S (follow_steps 3) - length (dev_data ex_dev8)) empty_qset, m3).
Proof.
  assert (scull_follow (dev_data ex_dev8) 3 (mem_first 2)
          = (None, dev_data ex_dev8 ++ replicate 2 empty_qset,
             {| kz_ok := kz_ok (mem_first 2); kz_calls := 3 |})) as H
    by (vm_compute; reflexivity).
  split; [exact H |]. split; [exact mem_always_good |].
  exact (proj2 (follow_retry _ 3 _ _ _ mem_always H mem_always_good)).
Defined.

(** ** scull_read: where it stops, and what it leaves *)

Lemma get_quantum_length quantum qset chain n s q :
  chain_ok quantum qset chain -> get_quantum chain n s = Some q ->
  Z.of_nat (length q) = quantum.
Proof.
  intros Hok Hq. unfold get_quantum in Hq.
  destruct (chain !! n) as [node |] eqn:Hn; [| done].
  destruct (qs_data node) as [arr |] eqn:Hd; [| done].
  destruct (arr !! s) as [[q' |] |] eqn:Hs; [| done | done].
  injection Hq as ->. unfold chain_ok in Hok. rewrite Forall_lookup in Hok.
  destruct (node_okb_array _ _ _ _ (Hok _ _ Hn) Hd) as [_ Ha].
  rewrite Forall_lookup in Ha. specialize (Ha _ _ Hs). simpl in Ha. lia.
Qed.

(** X4: a read of at least one byte into a buffer that has room for what is
    asked returns 0 exactly when the offset is at or past [size], or lands
    on a slot with no quantum (a hole); otherwise it returns a positive
    count, delivers that many bytes and advances the cursor by as much. *)
Theorem read_zero_iff d m room count pos :
  wf_dev d -> call_ok pos count -> 0 < count -> count <= room ->
  exists r, scull_read Acquired d m room count pos = Done r /\
    0 <= r_ret r /\
    (r_ret r = 0 <->
     dev_size d <= pos \/
     get_quantum (dev_data d) (seg_of d pos) (slot_of d pos) = None) /\
    len (r_user r) = r_ret r /\
    r_fpos r = pos + r_ret r.
Proof.
  intros Hwf Hcall Hcount Hroom. pose proof Hcall as (Hp & Hc & Hpc).
  destruct (xfer_bounds d pos count Hwf Hc) as (Hoff & _).
  destruct (scull_read_post d m room count pos Hwf Hcall) as (r & Hr & _ & _ & Hpost).
  exists r. split; [exact Hr |].
  destruct (Z.ltb_spec (dev_size d) pos) as [Hpast | Hin].
  { destruct Hpost as (-> & -> & -> & _). unfold len. simpl.
    split; [lia |]. split; [split; [intros _; left; lia | done] |]. lia. }
  destruct Hpost as [_ Hpost].
  destruct (get_quantum (dev_data d) (seg_of d pos) (slot_of d pos)) as [q |] eqn:Hq.
  - simpl in Hpost. unfold read_avail in *.
    set (c := Z.min (Z.min count (dev_size d - pos)) (dev_quantum d - off_of d pos)) in *.
    destruct (Z.ltb_spec room c) as [? | _]; [lia |].
    destruct Hpost as (-> & -> & ->).
    apply wf_dev_spec in Hwf as (_ & _ & Hok).
    pose proof (get_quantum_length _ _ _ _ _ _ Hok Hq) as Hlen.
    split; [lia |]. split.
    + split; [intros E; left; lia | intros [? | ?]; [lia | done]].
    + split; [| done]. unfold len. rewrite length_take, length_drop. lia.
  - destruct Hpost as (-> & -> & ->). unfold len. simpl.
    split; [lia |]. split; [split; [intros _; by right | done] |]. lia.
Qed.

Lemma read_zero_iff_witness :
  wf_dev ex_dev11 /\ call_ok 5 6 /\ 0 < 6 /\ 6 <= 6 /\
  exists r, scull_read Acquired ex_dev11 mem_always 6 6 5 = Done r /\
    0 <= r_ret r /\
    (r_ret r = 0 <->
     dev_size ex_dev11 <= 5 \/
     get_quantum (dev_data ex_dev11) (seg_of ex_dev11 5) (slot_of ex_dev11 5) = None) /\
    len (r_user r) = r_ret r /\
    r_fpos r = 5 + r_ret r.
Proof.
  assert (wf_dev ex_dev11) as H1 by reflexivity.
  assert (call_ok 5 6) as H2 by (unfold call_ok, LLONG_MAX; lia).
  assert (0 < 6) as H3 by lia. assert (6 <= 6) as H4 by lia.
  split; [exact H1 |]. split; [exact H2 |]. split; [exact H3 |].
  split; [exact H4 |].
  exact (read_zero_iff ex_dev11 mem_always 6 6 5 H1 H2 H3 H4).
Defined.

(** Two devices on which every read sees the same thing. *)
Lemma read_post_agree d d' m m' room count pos r r' :
  dev_quantum d' = dev_quantum d -> dev_qset d' = dev_qset d ->
  dev_size d' = dev_size d ->
  (forall n s, get_quantum (dev_data d') n s = get_quantum (dev_data d) n s) ->
  read_post d m room count pos r -> read_post d' m' room count pos r' ->
  r_ret r' = r_ret r /\ r_user r' = r_user r /\ r_fpos r' = r_fpos r.
Proof.
  intros Hq Hs Hsz Hg (_ & _ & H) (_ & _ & H').
  unfold read_avail, seg_of, slot_of, off_of in *.
  rewrite Hq, Hs, Hsz, Hg in H'.
  destruct (dev_size d <? pos).
  { destruct H as (-> & -> & -> & _), H' as (-> & -> & -> & _). done. }
  destruct H as [_ H], H' as [_ H'].
  destruct (get_quantum (dev_data d) _ _) as [q |].
  - simpl in *. destruct (room <? _);
      destruct H as (-> & -> & ->), H' as (-> & -> & ->); done.
  - destruct H as (-> & -> & ->), H' as (-> & -> & ->). done.
Qed.

(** X5: a read changes nothing a later read can see: after any read with
    the lock held, every read returns the value, the bytes and the cursor
    it would have returned without it. *)
Theorem read_leaves_reads d m1 room1 count1 pos1 m2 m3 room count pos :
  wf_dev d -> call_ok pos1 count1 -> call_ok pos count ->
  exists r1 r2 r2',
    scull_read Acquired d m1 room1 count1 pos1 = Done r1 /\
    scull_read Acquired d m2 room count pos = Done r2 /\
    scull_read Acquired (r_dev r1) m3 room count pos = Done r2' /\
    r_ret r2' = r_ret r2 /\ r_user r2' = r_user r2 /\ r_fpos r2' = r_fpos r2.
Proof.
  intros Hwf Hcall1 Hcall.
  destruct (scull_read_post d m1 room1 count1 pos1 Hwf Hcall1)
    as (r1 & Hr1 & [j Hj] & _).
  destruct (scull_read_post d m2 room count pos Hwf Hcall) as (r2 & Hr2 & Hpost2).
  assert (wf_dev (r_dev r1)) as Hwf1 by (rewrite Hj; by apply set_data_app_wf).
  destruct (scull_read_post (r_dev r1) m3 room count pos Hwf1 Hcall)
    as (r2' & Hr2' & Hpost2').
  exists r1, r2, r2'. split; [exact Hr1 |]. split; [exact Hr2 |].
  split; [exact Hr2' |].
  eapply read_post_agree; [.. | exact Hpost2 | exact Hpost2']; rewrite Hj; simpl;
    try done.
  intros. apply get_quantum_app_empty.
Qed.

Lemma read_leaves_reads_witness :
  wf_dev ex_dev8 /\ call_ok 8 1 /\ call_ok 2 4 /\
  exists r1 r2 r2',
    scull_read Acquired ex_dev8 mem_always 16 1 8 = Done r1 /\
    scull_read Acquired ex_dev8 mem_always 16 4 2 = Done r2 /\
    scull_read Acquired (r_dev r1) mem_never 16 4 2 = Done r2' /\
    r_ret r2' = r_ret r2 /\ r_user r2' = r_user r2 /\ r_fpos r2' = r_fpos r2.
Proof.
  assert (wf_dev ex_dev8) as H1 by reflexivity.
  assert (call_ok 8 1) as H2 by (unfold call_ok, LLONG_MAX; lia).
  assert (call_ok 2 4) as H3 by (unfold call_ok, LLONG_MAX; lia).
  split; [exact H1 |]. split; [exact H2 |]. split; [exact H3 |].
  exact (read_leaves_reads ex_dev8 mem_always 16 1 8 mem_always mem_never 16 4 2
           H1 H2 H3).
Defined.

(** ** scull_open and scull_release *)

(** X6: an [open] for writing only that gets the lock empties the device:
    it returns 0, and from then on a read at any offset returns 0 and
    delivers nothing.  An [open] in any other access mode, an [open] that is
    interrupted while waiting for the lock (which returns [-ERESTARTSYS])
    and a release leave the device exactly as it was. *)
Theorem open_wronly_truncates p d f_flags :
  sizes_okb (scull_quantum p) (scull_qset p) = true ->
  reachable p d ->
  (Z.land f_flags O_ACCMODE = O_WRONLY ->
   exists d', scull_open p Acquired f_flags d = Done (0, d') /\
     dev_size d' = 0 /\ dev_data d' = [] /\
     (forall m room count pos, call_ok pos count ->
        exists r, scull_read Acquired d' m room count pos = Done r /\
          r_ret r = 0 /\ r_user r = [] /\ r_fpos r = pos) /\
     scull_open p Interrupted f_flags d = Done (- ERESTARTSYS, d)) /\
  (Z.land f_flags O_ACCMODE <> O_WRONLY ->
   forall lk, scull_open p lk f_flags d = Done (0, d)) /\
  scull_release d = (0, d).
Proof.
  intros Hp Hreach. pose proof (reachable_wf p d Hp Hreach) as Hwf.
  split; [| split; [| done]].
  - intros Hmode. unfold scull_open. rewrite Hmode, Z.eqb_refl.
    rewrite scull_trim_wf by done.
    exists (fresh_dev p). split; [done |]. split; [done |]. split; [done |].
    split; [| done].
    intros m room count pos Hcall.
    destruct (scull_read_post (fresh_dev p) m room count pos (fresh_dev_wf p Hp) Hcall)
      as (r & Hr & _ & _ & Hpost).
    exists r. split; [exact Hr |]. simpl in Hpost.
    destruct (0 <? pos); [by destruct Hpost as (? & ? & ? & _) |].
    by destruct Hpost as [_ Hpost].
  - intros Hmode lk. unfold scull_open.
    by destruct (Z.eqb_spec (Z.land f_flags O_ACCMODE) O_WRONLY).
Qed.

Lemma ex_dev8_reachable : reachable ex_params ex_dev8.
Proof.
  assert (call_ok 0 8) as Hc0 by (unfold call_ok, LLONG_MAX; lia).
  assert (call_ok 4 4) as Hc4 by (unfold call_ok, LLONG_MAX; lia).
  apply (reach_step ex_params (OpWrite Acquired (bytes_of "EFGH") 4 4)
           {| dev_data := [ {| qs_data := Some [Some (bytes_of "ABCD"); None] |} ];
              dev_quantum := 4; dev_qset := 2; dev_size := 4 |}
           {| kz_ok := kz_ok mem_always; kz_calls := 3 |} 4 ex_dev8
           {| kz_ok := kz_ok mem_always; kz_calls := 4 |});
    [| exact Hc4 | vm_compute; reflexivity].
  apply (reach_step ex_params (OpWrite Acquired (bytes_of "ABCDEFGH") 8 0)
           (fresh_dev ex_params) mem_always 4 _
           {| kz_ok := kz_ok mem_always; kz_calls := 3 |});
    [apply reach_init | exact Hc0 | vm_compute; reflexivity].
Defined.

Lemma open_wronly_truncates_witness :
  sizes_okb (scull_quantum ex_params) (scull_qset ex_params) = true /\
  reachable ex_params ex_dev8 /\
  (Z.land 1 O_ACCMODE = O_WRONLY ->
   exists d', scull_open ex_params Acquired 1 ex_dev8 = Done (0, d') /\
     dev_size d' = 0 /\ dev_data d' = [] /\
     (forall m room count pos, call_ok pos count ->
        exists r, scull_read Acquired d' m room count pos = Done r /\
          r_ret r = 0 /\ r_user r = [] /\ r_fpos r = pos) /\
     scull_open ex_params Interrupted 1 ex_dev8 = Done (- ERESTARTSYS, ex_dev8)) /\
  (Z.land 1 O_ACCMODE <> O_WRONLY ->
   forall lk, scull_open ex_params lk 1 ex_dev8 = Done (0, ex_dev8)) /\
  scull_release ex_dev8 = (0, ex_dev8).
Proof.
  assert (sizes_okb (scull_quantum ex_params) (scull_qset ex_params) = true)
    as H1 by reflexivity.
  split; [exact H1 |]. split; [exact ex_dev8_reachable |].
  exact (open_wronly_truncates ex_params ex_dev8 1 H1 ex_dev8_reachable).
Defined.

(** ** scull_write: the chain it leaves *)

Lemma write_copy_chain d chain i arr s_pos q_pos q m ubuf count pos r :
  write_copy d chain i arr s_pos q_pos q m ubuf count pos = Done r ->
  length (dev_data (w_dev r)) = length chain.
Proof.
  unfold write_copy, store_quantum.
  destruct (_ || _); [done |]. destruct (_ <? _);
    intros [= <-]; simpl; by rewrite length_insert.
Qed.

Lemma write_slot_chain d chain i arr s_pos q_pos m ubuf count pos r :
  write_slot d chain i arr s_pos q_pos m ubuf count pos = Done r ->
  length (dev_data (w_dev r)) = length chain.
Proof.
  unfold write_slot. destruct (slot arr s_pos) as [[q |] |]; [| | done].
  - apply write_copy_chain.
  - unfold kzalloc. destruct (kz_ok m (kz_calls m)); [apply write_copy_chain |].
    intros [= <-]. simpl. by rewrite length_insert.
Qed.

Lemma write_array_chain d chain i node s_pos q_pos m ubuf count pos r :
  write_array d chain i node s_pos q_pos m ubuf count pos = Done r ->
  length (dev_data (w_dev r)) = length chain.
Proof.
  unfold write_array. destruct (qs_data node); [apply write_slot_chain |].
  unfold kzalloc. destruct (kz_ok m (kz_calls m)); [apply write_slot_chain |].
  by intros [= <-].
Qed.

(** The chain after a write is the chain scull_follow left, up to what
    the slots hold; when scull_follow returned [NULL] nothing else is
    changed. *)
Lemma scull_write_chain d m ubuf count pos r :
  wf_dev d -> call_ok pos count ->
  scull_write Acquired d m ubuf count pos = Done r ->
  exists dptr chain m1,
    scull_follow (dev_data d) (to_int (pos / (dev_quantum d * dev_qset d))) m
    = (dptr, chain, m1) /\
    length (dev_data (w_dev r)) = length chain /\
    (dptr = None -> dev_size (w_dev r) = dev_size d).
Proof.
  intros Hwf (Hp & Hc & Hpc). unfold scull_write.
  rewrite translate_of_dev by (done || lia).
  destruct (scull_follow _ _ m) as [[dptr chain] m1].
  intros Hw. exists dptr, chain, m1. split; [done |].
  destruct dptr as [i |]; [| by injection Hw as <-].
  destruct (chain !! i) as [node |]; [| done].
  split; [by eapply write_array_chain | done].
Qed.

Lemma scull_write_chain_bounds d m lk ubuf count pos r :
  wf_dev d -> call_ok pos count ->
  scull_write lk d m ubuf count pos = Done r ->
  (length (dev_data d) <= length (dev_data (w_dev r)))%nat /\
  (length (dev_data (w_dev r))
   <= length (dev_data d) `max` S (seg_of d pos))%nat /\
  (lk = Acquired -> mem_good m ->
   length (dev_data (w_dev r))
   = (length (dev_data d) `max` S (seg_of d pos))%nat).
Proof.
  intros Hwf Hcall Hw. destruct lk.
  2: { injection Hw as <-. simpl. split; [lia |]. split; [lia | done]. }
  destruct (scull_write_chain d m ubuf count pos r Hwf Hcall Hw)
    as (dptr & chain & m1 & Hf & -> & _).
  fold (seg_of d pos) in *. unfold seg_of in *.
  destruct dptr as [i |].
  - apply scull_follow_shape in Hf as (_ & _ & Hsome & _).
    destruct (Hsome i eq_refl) as [-> ->]. split; [lia |]. split; [lia | done].
  - pose proof Hf as Hf'. apply scull_follow_fail in Hf as (j & -> & Hlen & _).
    rewrite length_app in *. split; [lia |]. split; [lia |].
    intros _ G. apply scull_follow_shape in Hf' as (_ & _ & _ & _ & Hgood).
    by specialize (Hgood G).
Qed.

(** X7: a write never takes a node off the chain and never links one past
    the node it writes to: the chain afterwards has at least the nodes it
    had and at most [max] of that and the target index plus one; it has
    exactly that many whenever the call got the lock and scull_follow was
    not refused memory. *)
Theorem write_chain_length d m lk ubuf count pos r :
  wf_dev d -> call_ok pos count ->
  scull_write lk d m ubuf count pos = Done r ->
  (length (dev_data d) <= length (dev_data (w_dev r)))%nat /\
  (length (dev_data (w_dev r))
   <= length (dev_data d) `max` S (seg_of d pos))%nat /\
  (lk = Acquired -> mem_good m ->
   length (dev_data (w_dev r))
   = (length (dev_data d) `max` S (seg_of d pos))%nat).
Proof. apply scull_write_chain_bounds. Qed.

Lemma write_chain_length_witness :
  wf_dev ex_dev8 /\ call_ok 10 1 /\
  scull_write Acquired ex_dev8 mem_always (bytes_of "Z") 1 10
  = Done {| w_ret := 1; w_fpos := 11; w_dev := ex_dev11;
            w_mem := {| kz_ok := kz_ok mem_always; kz_calls := 3 |} |} /\
  (length (dev_data ex_dev8) <= length (dev_data ex_dev11))%nat /\
  (length (dev_data ex_dev11)
   <= length (dev_data ex_dev8) `max` S (seg_of ex_dev8 10))%nat /\
  (Acquired = Acquired -> mem_good mem_always ->
   length (dev_data ex_dev11)
   = (length (dev_data ex_dev8) `max` S (seg_of ex_dev8 10))%nat).
Proof.
  assert (wf_dev ex_dev8) as H1 by reflexivity.
  assert (call_ok 10 1) as H2 by (unfold call_ok, LLONG_MAX; lia).
  assert (scull_write Acquired ex_dev8 mem_always (bytes_of "Z") 1 10
          = Done {| w_ret := 1; w_fpos := 11; w_dev := ex_dev11;
                    w_mem := {| kz_ok := kz_ok mem_always; kz_calls := 3 |} |})
    as H3 by (vm_compute; reflexivity).
  split; [exact H1 |]. split; [exact H2 |]. split; [exact H3 |].
  exact (write_chain_length ex_dev8 mem_always Acquired (bytes_of "Z") 1 10 _ H1 H2 H3).
Defined.

(** ** Capacity *)

Lemma write_end_in_segment d pos count :
  wf_dev d -> 0 <= pos -> 0 <= count -> reachable_pos d pos ->
  pos + xfer d pos count
  <= Z.of_nat (S (seg_of d pos)) * (dev_quantum d * dev_qset d).
Proof.
  intros Hwf Hp Hc Hreach.
  destruct (xfer_bounds d pos count Hwf Hc) as (Hoff & Hx0 & Hxc & Hxq).
  apply wf_dev_spec in Hwf as ((Hq & Hs & Hi) & _).
  destruct (sizes_bounds _ _ Hq Hs Hi) as (_ & _ & Hi').
  destruct (translate_slot_bounds (dev_quantum d) (dev_qset d) pos Hq Hs) as [Hsl _].
  unfold reachable_pos, seg_of, follow_steps, off_of in *.
  set (I := dev_quantum d * dev_qset d) in *.
  assert (0 <= pos / I) by (apply Z.div_pos; lia).
  rewrite to_int_small by lia.
  rewrite to_uint_small by (unfold INT_MAX in *; lia).
  rewrite Nat2Z.inj_succ, Z2Nat.id by lia.
  pose proof (Z.div_mod pos I) as E1.
  pose proof (Z.div_mod (pos mod I) (dev_quantum d)) as E2.
  unfold I in *. nia.
Qed.

(** X8: every call keeps [size] within the chain's capacity: when [size]
    is at most the number of nodes times [quantum * qset] before a call, it
    is so after it, for writes at offsets whose node index fits an [int]. *)
Theorem capacity_kept p o d m ret d' m' :
  wf_dev d -> capacity d -> op_ok o -> op_near d o ->
  step p o d m = Done (ret, d', m') ->
  capacity d'.
Proof.
  intros Hwf Hcap Ho Hnear Hstep. unfold capacity in *.
  pose proof Hwf as Hwf0. apply wf_dev_spec in Hwf0 as ((Hq & Hs & Hi) & _).
  destruct (sizes_bounds _ _ Hq Hs Hi) as (_ & _ & Hi').
  destruct o as [lk flags | | lk room count pos | lk ubuf count pos]; simpl in *.
  - unfold scull_open in Hstep.
    destruct (Z.land flags O_ACCMODE =? O_WRONLY); [| by injection Hstep as _ <- _].
    destruct lk; [| by injection Hstep as _ <- _].
    rewrite scull_trim_wf in Hstep by done. injection Hstep as _ <- _. simpl. lia.
  - by injection Hstep as _ <- _.
  - destruct (scull_read_any lk d m room count pos Hwf Ho) as (r & j & Hr & Hd & _).
    rewrite Hr in Hstep. injection Hstep as _ <- _. rewrite Hd. simpl.
    rewrite length_app. nia.
  - destruct (scull_write_post d ubuf count pos Hwf Ho lk m)
      as (r & Hr & _ & _ & (Fq & Fs & _) & Hcase).
    pose proof (scull_write_chain_bounds d m lk ubuf count pos r Hwf Ho Hr)
      as (Hlo & _ & _).
    rewrite Hr in Hstep. injection Hstep as _ <- _. rewrite Fq, Fs.
    destruct Hcase as [(_ & _ & -> & _) | (_ & _ & Hsize & _)]; [nia |].
    destruct lk; [| injection Hr as <-; simpl in *; nia].
    destruct (scull_write_chain d m ubuf count pos r Hwf Ho Hr)
      as (dptr & chain & m1 & Hf & Hlen & Hnone).
    destruct dptr as [i |]; [| rewrite Hnone by done; nia].
    apply scull_follow_shape in Hf as (_ & _ & Hsome & _).
    destruct (Hsome i eq_refl) as [-> Hmax]. fold (seg_of d pos) in Hmax.
    destruct Ho as (Hp & Hc & _).
    pose proof (write_end_in_segment d pos count Hwf Hp Hc Hnear) as Hend.
    rewrite Hsize, Hlen, Hmax. nia.
Qed.

Lemma capacity_kept_witness :
  wf_dev ex_dev8 /\ capacity ex_dev8 /\
  op_ok (OpWrite Acquired (bytes_of "Z") 1 10) /\
  op_near ex_dev8 (OpWrite Acquired (bytes_of "Z") 1 10) /\
  step ex_params (OpWrite Acquired (bytes_of "Z") 1 10) ex_dev8 mem_always
  = Done (1, ex_dev11, {| kz_ok := kz_ok mem_always; kz_calls := 3 |}) /\
  capacity ex_dev11.
Proof.
  assert (wf_dev ex_dev8) as H1 by reflexivity.
  assert (capacity ex_dev8) as H2 by (unfold capacity; simpl; lia).
  assert (op_ok (OpWrite Acquired (bytes_of "Z") 1 10)) as H3
    by (unfold op_ok, call_ok, LLONG_MAX; lia).
  assert (op_near ex_dev8 (OpWrite Acquired (bytes_of "Z") 1 10)) as H4
    by (unfold op_near, reachable_pos, INT_MAX; simpl;
        apply Z.div_le_upper_bound; lia).
  assert (step ex_params (OpWrite Acquired (bytes_of "Z") 1 10) ex_dev8 mem_always
          = Done (1, ex_dev11, {| kz_ok := kz_ok mem_always; kz_calls := 3 |}))
    as H5 by (vm_compute; reflexivity).
  split; [exact H1 |]. split; [exact H2 |]. split; [exact H3 |].
  split; [exact H4 |]. split; [exact H5 |].
  exact (capacity_kept ex_params _ ex_dev8 mem_always 1 ex_dev11 _ H1 H2 H3 H4 H5).
Defined.

(** Without the bound on the offset the capacity is not kept: the write of
    one byte at [8 * 2^32] lands in the first node and sets [size] far past
    the one node of the chain. *)
Example ex_far_write_capacity :
  exists r, scull_write Acquired (fresh_dev ex_params) mem_always (bytes_of "X") 1
              34359738368 = Done r /\
    length (dev_data (w_dev r)) = 1%nat /\ dev_size (w_dev r) = 34359738369.
Proof. eexists. split; [vm_compute; reflexivity |]. split; vm_compute; reflexivity. Qed.

(** ** scull_write: out of memory *)

Lemma write_copy_not_enomem d chain i arr s_pos q m ubuf count pos r :
  wf_dev d -> call_ok pos count ->
  write_copy d chain i arr s_pos (off_of d pos) q m ubuf count pos = Done r ->
  w_ret r <> - ENOMEM.
Proof.
  intros Hwf Hcall. pose proof Hcall as (_ & Hc & _).
  destruct (xfer_bounds d pos count Hwf Hc) as (_ & Hx0 & _ & Hxq).
  unfold write_copy. rewrite write_clamp by done.
  destruct (_ || _); [done |]. destruct (_ <? _); intros [= <-]; simpl.
  - unfold EFAULT, ENOMEM. lia.
  - apply wf_dev_spec in Hwf as ((Hq & Hs & Hi) & _).
    destruct (sizes_bounds _ _ Hq Hs Hi) as (Hq' & _).
    destruct (translate_slot_bounds (dev_quantum d) (dev_qset d) pos Hq Hs) as [_ Hoff].
    fold (off_of d pos) in Hoff.
    rewrite to_int_small by (unfold INT_MAX in *; lia). unfold ENOMEM. lia.
Qed.

Lemma write_slot_enomem d chain node arr s_pos m ubuf count pos r :
  wf_dev d -> call_ok pos count ->
  chain !! seg_of d pos = Some node ->
  qs_data node = Some arr \/ (qs_data node = None /\ exists k, arr = replicate k None) ->
  write_slot d chain (seg_of d pos) arr s_pos (off_of d pos) m ubuf count pos = Done r ->
  w_ret r = - ENOMEM ->
  forall n s, get_quantum (dev_data (w_dev r)) n s = get_quantum chain n s.
Proof.
  intros Hwf Hcall Hn Hd. unfold write_slot.
  destruct (slot arr s_pos) as [[q |] |]; [| | done].
  - intros Hw Hret. by apply write_copy_not_enomem in Hw.
  - unfold kzalloc. destruct (kz_ok m (kz_calls m)).
    + intros Hw Hret. by apply write_copy_not_enomem in Hw.
    + intros [= <-] _ n s. simpl. by eapply get_quantum_set_array.
Qed.

Lemma write_array_enomem d chain node s_pos m ubuf count pos r :
  wf_dev d -> call_ok pos count ->
  chain !! seg_of d pos = Some node ->
  write_array d chain (seg_of d pos) node s_pos (off_of d pos) m ubuf count pos = Done r ->
  w_ret r = - ENOMEM ->
  forall n s, get_quantum (dev_data (w_dev r)) n s = get_quantum chain n s.
Proof.
  intros Hwf Hcall Hn. unfold write_array.
  destruct (qs_data node) as [arr |] eqn:Hd.
  - apply write_slot_enomem with (node := node); auto.
  - unfold kzalloc. destruct (kz_ok m (kz_calls m)).
    + apply write_slot_enomem with (node := node); eauto.
    + by intros [= <-] _ n s.
Qed.

Lemma scull_write_enomem d m lk ubuf count pos r :
  wf_dev d -> call_ok pos count ->
  scull_write lk d m ubuf count pos = Done r -> w_ret r = - ENOMEM ->
  forall n s, get_quantum (dev_data (w_dev r)) n s = get_quantum (dev_data d) n s.
Proof.
  intros Hwf Hcall Hw Hret. pose proof Hcall as (Hp & Hc & Hpc).
  unfold scull_write in Hw. destruct lk; [| by injection Hw as <-].
  rewrite translate_of_dev in Hw by (done || lia).
  destruct (scull_follow _ _ m) as [[dptr chain] m1] eqn:Hf.
  apply scull_follow_shape in Hf as ([j ->] & _ & Hsome & _).
  fold (seg_of d pos) in *.
  destruct dptr as [i |]; [| injection Hw as <-; discriminate Hret].
  destruct (Hsome i eq_refl) as [-> _].
  destruct (_ !! seg_of d pos) as [node |] eqn:Hn; [| done].
  intros n s.
  rewrite (write_array_enomem d _ node _ m1 ubuf count pos r Hwf Hcall Hn Hw Hret).
  apply get_quantum_app_empty.
Qed.

(** X9: a write that returns [-ENOMEM] has changed no stored byte, nor
    [size], nor the cursor; and the same call made again on the device it
    left, once memory is available and with a readable buffer, goes through
    as it would have the first time: same count, same [size], and a chain
    with no node more than the first call needed. *)
Theorem write_enomem_retry d m lk ubuf count pos r m2 :
  wf_dev d -> call_ok pos count ->
  scull_write lk d m ubuf count pos = Done r -> w_ret r = - ENOMEM ->
  (forall n s, get_quantum (dev_data (w_dev r)) n s = get_quantum (dev_data d) n s) /\
  dev_size (w_dev r) = dev_size d /\ w_fpos r = pos /\
  (mem_good m2 -> xfer d pos count <= len ubuf ->
   exists r2, scull_write Acquired (w_dev r) m2 ubuf count pos = Done r2 /\
     w_ret r2 = xfer d pos count /\
     w_fpos r2 = pos + xfer d pos count /\
     dev_size (w_dev r2) = Z.max (dev_size d) (pos + xfer d pos count) /\
     length (dev_data (w_dev r2))
     = (length (dev_data d) `max` S (seg_of d pos))%nat).
Proof.
  intros Hwf Hcall Hw Hret. pose proof Hcall as (_ & Hc & _).
  destruct (xfer_bounds d pos count Hwf Hc) as (_ & Hx0 & _).
  split; [by eapply scull_write_enomem |].
  destruct (scull_write_post d ubuf count pos Hwf Hcall lk m)
    as (r' & Hr' & Hwf' & _ & (Fq & Fs & _) & Hcase).
  rewrite Hw in Hr'. injection Hr' as <-.
  destruct Hcase as [(_ & Hfpos & Hsize & _) | (R1 & _)];
    [| unfold ENOMEM in *; lia].
  split; [exact Hsize |]. split; [exact Hfpos |].
  intros G Hbuf.
  assert (forall x, seg_of (w_dev r) x = seg_of d x) as Eseg
    by (intros x; unfold seg_of; by rewrite Fq, Fs).
  assert (xfer (w_dev r) pos count = xfer d pos count) as Ex
    by (unfold xfer, off_of; by rewrite Fq, Fs).
  destruct (scull_write_clean (w_dev r) m2 ubuf count pos Hwf' Hcall G)
    as (r2 & Hr2 & _ & _ & _ & (R1 & R2 & R3 & _)); [by rewrite Ex |].
  exists r2. split; [exact Hr2 |]. rewrite Ex, Hsize in *.
  split; [exact R1 |]. split; [exact R2 |]. split; [exact R3 |].
  pose proof (scull_write_chain_bounds d m lk ubuf count pos r Hwf Hcall Hw)
    as (Hlo & Hhi & _).
  pose proof (scull_write_chain_bounds (w_dev r) m2 Acquired ubuf count pos r2
                Hwf' Hcall Hr2) as (_ & _ & Heq).
  rewrite (Heq eq_refl G), Eseg. lia.
Qed.

Lemma write_enomem_retry_witness :
  wf_dev ex_dev8 /\ call_ok 10 1 /\
  scull_write Acquired ex_dev8 (mem_first 1) (bytes_of "Z") 1 10
  = Done {| w_ret := - ENOMEM; w_fpos := 10;
            w_dev := set_data ex_dev8 (dev_data ex_dev8 ++ [empty_qset]);
            w_mem := {| kz_ok := kz_ok (mem_first 1); kz_calls := 2 |} |} /\
  - ENOMEM = - ENOMEM /\
  (forall n s,
     get_quantum (dev_data ex_dev8 ++ [empty_qset]) n s
     = get_quantum (dev_data ex_dev8) n s) /\
  dev_size ex_dev8 = dev_size ex_dev8 /\ 10 = 10 /\
  (mem_good mem_always -> xfer ex_dev8 10 1 <= len (bytes_of "Z") ->
   exists r2,
     scull_write Acquired (set_data ex_dev8 (dev_data ex_dev8 ++ [empty_qset]))
       mem_always (bytes_of "Z") 1 10 = Done r2 /\
     w_ret r2 = xfer ex_dev8 10 1 /\
     w_fpos r2 = 10 + xfer ex_dev8 10 1 /\
     dev_size (w_dev r2) = Z.max (dev_size ex_dev8) (10 + xfer ex_dev8 10 1) /\
     length (dev_data (w_dev r2))
     = (length (dev_data ex_dev8) `max` S (seg_of ex_dev8 10))%nat).
Proof.
  assert (wf_dev ex_dev8) as H1 by reflexivity.
  assert (call_ok 10 1) as H2 by (unfold call_ok, LLONG_MAX; lia).
  assert (scull_write Acquired ex_dev8 (mem_first 1) (bytes_of "Z") 1 10
          = Done {| w_ret := - ENOMEM; w_fpos := 10;
                    w_dev := set_data ex_dev8 (dev_data ex_dev8 ++ [empty_qset]);
                    w_mem := {| kz_ok := kz_ok (mem_first 1); kz_calls := 2 |} |})
    as H3 by (vm_compute; reflexivity).
  split; [exact H1 |]. split; [exact H2 |]. split; [exact H3 |].
  split; [reflexivity |].
  exact (write_enomem_retry ex_dev8 (mem_first 1) Acquired (bytes_of "Z") 1 10 _
           mem_always H1 H2 H3 eq_refl).
Defined.

(** ** Writing a buffer in several calls *)










(** The calls of this example, run: four of them, of 2, 4, 4 and 1 bytes. *)
Example ex_write_all :
  exists d' m',
    write_all 11 (fresh_dev ex_params) mem_always (bytes_of "ABCDEFGHIJK") 2
    = Done (11, d', m') /\
    dev_size d' = 13 /\
    dev_data d' =
      [ {| qs_data := Some [Some [x00; x00; "A"%byte; "B"%byte];
                            Some (bytes_of "CDEF")] |};
        {| qs_data := Some [Some (bytes_of "GHIJ");
                            Some ["K"%byte; x00; x00; x00]] |} ].
Proof.
  eexists _, _. split; [vm_compute; reflexivity |].
  split; vm_compute; reflexivity.
Qed.

(** ** Loading the module *)

Lemma cleanup_loop_fresh p k : forall i tbl cdevs,
  (i + k <= length tbl)%nat ->
  Forall (fun d => dev_data d = []) tbl ->
  exists cdevs', cleanup_loop p k i tbl cdevs = Done cdevs'.
Proof.
  induction k as [| k IH]; intros i tbl cdevs Hlen Hall; simpl; [by eexists |].
  destruct (lookup_lt_is_Some_2 tbl i) as [d Hd]; [lia |]. rewrite Hd.
  rewrite Forall_lookup in Hall. pose proof (Hall _ _ Hd) as Hnil.
  unfold scull_trim. rewrite Hnil. simpl. apply IH; [lia |].
  by rewrite Forall_lookup.
Qed.

Lemma init_loop_fresh p e k : forall i tbl cdevs err tbl' cdevs',
  Forall (fun d => dev_data d = []) tbl ->
  init_loop p e k i tbl cdevs = (err, tbl', cdevs') ->
  Forall (fun d => dev_data d = []) tbl' /\ length tbl' = length tbl.
Proof.
  induction k as [| k IH]; intros i tbl cdevs err tbl' cdevs' Hall; simpl.
  - by intros [= _ <- _].
  - assert (Forall (fun d => dev_data d = [])
              (<[i := {| dev_data := []; dev_quantum := scull_quantum p;
                         dev_qset := scull_qset p; dev_size := 0 |}]> tbl)) as Hall'.
    { destruct (decide (i < length tbl)%nat).
      - by apply Forall_insert.
      - by rewrite list_insert_ge by lia. }
    destruct (cdev_add_err e i =? 0).
    + intros H. apply IH in H as [H1 H2]; [| done].
      split; [done |]. by rewrite H2, length_insert.
    + intros [= _ <- _]. split; [done |]. by rewrite length_insert.
Qed.

Lemma init_loop_err p e k : forall i tbl cdevs err tbl' cdevs',
  init_loop p e k i tbl cdevs = (err, tbl', cdevs') ->
  (err = 0 /\ forall j, (j < k)%nat -> cdev_add_err e (i + j) = 0) \/
  (err <> 0 /\ exists j, (j < k)%nat /\ err = cdev_add_err e (i + j) /\
     forall j', (j' < j)%nat -> cdev_add_err e (i + j') = 0).
Proof.
  induction k as [| k IH]; intros i tbl cdevs err tbl' cdevs'; simpl.
  - intros [= <- _ _]. left. split; [done |]. intros j Hj. lia.
  - destruct (Z.eqb_spec (cdev_add_err e i) 0) as [H0 | H0].
    + intros H. apply IH in H as [[-> Hall] | (Hne & j & Hj & -> & Hbefore)].
      * left. split; [done |]. intros [| j] Hj.
        { by rewrite Nat.add_0_r. }
        { replace (i + S j)%nat with (S i + j)%nat by lia. apply Hall. lia. }
      * right. split; [done |]. exists (S j). split; [lia |].
        split; [f_equal; lia |]. intros [| j'] Hj'.
        { by rewrite Nat.add_0_r. }
        { replace (i + S j')%nat with (S i + j')%nat by lia. apply Hbefore. lia. }
    + intros [= <- _ _]. right. split; [done |]. exists 0%nat.
      rewrite Nat.add_0_r. split; [lia |]. split; [done |]. intros j' Hj'. lia.
Qed.

(** X11: with [scull_num_devs] at most 4, scull_init returns; it returns 0
    exactly when the device numbers are reserved, the table is allocated
    and the four [cdev_add] succeed; otherwise it returns the error of the
    first step that failed ([-ENOMEM] for the table) and leaves neither a
    reserved range of device numbers nor a device table behind. *)
Theorem scull_init_all_or_nothing p e :
  scull_num_devs p <= 4 ->
  exists err drv, scull_init p e = Done (err, drv) /\
    (err = 0 <->
     region_err e = 0 /\ kz_ok (init_mem e) (kz_calls (init_mem e)) = true /\
     forall i, (i < 4)%nat -> cdev_add_err e i = 0) /\
    (err <> 0 -> drv_region drv = None /\ drv_devices drv = None) /\
    (region_err e <> 0 -> err = region_err e) /\
    (region_err e = 0 -> kz_ok (init_mem e) (kz_calls (init_mem e)) = false ->
     err = - ENOMEM) /\
    (region_err e = 0 -> kz_ok (init_mem e) (kz_calls (init_mem e)) = true ->
     forall i, (i < 4)%nat -> cdev_add_err e i <> 0 ->
       (forall j, (j < i)%nat -> cdev_add_err e j = 0) ->
       err = cdev_add_err e i).
Proof.
  intros Hn. unfold scull_init.
  set (p1 := if scull_major p =? 0 then _ else p).
  assert (scull_num_devs p1 = scull_num_devs p) as Hn1
    by (unfold p1; by destruct (scull_major p =? 0)).
  destruct (init_loop p1 e 4 0 (replicate 4 zeroed_dev) []) as [[err tbl] cdevs] eqn:Hloop.
  pose proof (init_loop_fresh _ _ _ _ _ _ _ _ _
                (Forall_replicate _ 4 zeroed_dev eq_refl) Hloop) as [Hfresh Hlen].
  pose proof (init_loop_err _ _ _ _ _ _ _ _ _ Hloop) as Herr.
  clear Hloop. simpl in Herr.
  destruct (Z.eqb_spec (region_err e) 0) as [Hreg | Hreg]; simpl.
  2: { eexists _, _. split; [reflexivity |]. simpl.
       split; [split; [done | by intros [? _]] |]. repeat split; done. }
  destruct (kz_ok (init_mem e) (kz_calls (init_mem e))) eqn:Hmem; simpl.
  2: { eexists _, _. split; [reflexivity |]. simpl. unfold ENOMEM.
       split; [split; [done | by intros (_ & ? & _)] |]. repeat split; done. }
  destruct (Z.eqb_spec err 0) as [-> | Hne].
  - eexists _, _. split; [reflexivity |].
    destruct Herr as [[_ Hall] | [? _]]; [| done].
    split; [split; [done | done] |]. split; [done |]. split; [done |].
    split; [done |]. intros _ _ i Hi Hbad _. by specialize (Hall i Hi).
  - unfold scull_cleanup. simpl.
    destruct (cleanup_loop_fresh p1 (Z.to_nat (scull_num_devs p1)) 0 tbl cdevs)
      as [cdevs' ->]; [rewrite Hlen, length_replicate; lia | done |].
    eexists _, _. split; [reflexivity |]. simpl.
    destruct Herr as [[? _] | (_ & j & Hj & -> & Hbefore)]; [done |].
    split; [split; [done | intros (_ & _ & Hall); by specialize (Hall j Hj)] |].
    split; [done |]. split; [done |]. split; [done |].
    intros _ _ i Hi Hbad Hzero.
    destruct (Nat.lt_trichotomy i j) as [Hlt | [-> | Hgt]]; [| done |].
    + by specialize (Hbefore i Hlt).
    + by specialize (Hzero j Hgt).
Qed.

Lemma scull_init_all_or_nothing_witness :
  scull_num_devs default_params <= 4 /\
  exists err drv,
    scull_init default_params
      {| region_err := 0; dyn_major := 250; dyn_minor := 0;
         cdev_add_err := fun i => if (i =? 2)%nat then -16 else 0;
         init_mem := mem_always |} = Done (err, drv) /\
    err = -16 /\ drv_region drv = None /\ drv_devices drv = None.
Proof.
  assert (scull_num_devs default_params <= 4) as H by (simpl; lia).
  split; [exact H |].
  destruct (scull_init_all_or_nothing default_params
              {| region_err := 0; dyn_major := 250; dyn_minor := 0;
                 cdev_add_err := fun i => if (i =? 2)%nat then -16 else 0;
                 init_mem := mem_always |} H)
    as (err & drv & Hinit & _ & Hclean & _ & _ & Hfirst).
  assert (err = -16) as Herr.
  { apply (Hfirst eq_refl eq_refl 2%nat); [lia | done |].
    intros j Hj. by destruct j as [| [| j]]; [| | lia]. }
  exists err, drv. split; [exact Hinit |]. split; [exact Herr |].
  apply Hclean. rewrite Herr. done.
Defined.

(** ** The /proc listing *)

Lemma filter_none {A} (P : A -> Prop) `{!forall x, Decision (P x)} (l : list A) :
  (forall x, x ∈ l -> ~ P x) -> filter P l = [].
Proof.
  induction l as [| a l IH]; intros Hall; [done |].
  rewrite filter_cons_False by (apply Hall; left).
  apply IH. intros x Hx. apply Hall. by right.
Qed.

(** The quantum lines of an array: its occupied slots, in increasing order. *)
Lemma show_quanta_exact arr (P : Z -> Prop) `{!forall s, Decision (P s)} k :
  forall i,
  0 <= i -> (Z.to_nat i + k = length arr)%nat ->
  (forall s, i <= s -> P s <-> exists q, arr !! Z.to_nat s = Some (Some q)) ->
  show_quanta (Some arr) k i
  = Done (QuantumLine <$> filter P (seqZ i (Z.of_nat k))).
Proof.
  induction k as [| k IH]; intros i Hi Hlen HP; [done |].
  rewrite seqZ_cons by lia.
  replace (Z.pred (Z.of_nat (S k))) with (Z.of_nat k) by lia.
  cbn [show_quanta]. unfold slot.
  destruct (Z.ltb_spec i 0) as [? | _]; [lia |].
  destruct (lookup_lt_is_Some_2 arr (Z.to_nat i)) as [cell Hcell]; [lia |].
  rewrite Hcell.
  replace (Z.succ i) with (i + 1) by lia.
  rewrite (IH (i + 1)) by (lia || (intros s Hs; apply HP; lia)).
  destruct cell as [q0 |].
  - rewrite filter_cons_True; [done |]. apply HP; [lia |]. by exists q0.
  - rewrite filter_cons_False; [done |].
    intros (q & Hq)%HP; [| lia]. congruence.
Qed.

(** The lines of a chain: one per node, in chain order, numbered from
    [item], then the quantum lines of the last node. *)
Lemma show_items_exact quantum qset (P : Z -> Prop) `{!forall s, Decision (P s)}
    chain : forall item,
  chain_ok quantum qset chain -> 0 <= qset ->
  (forall qs, last chain = Some qs -> qs_data qs <> None) ->
  (forall s, 0 <= s ->
     P s <-> exists q, get_quantum chain (length chain - 1) (Z.to_nat s) = Some q) ->
  show_items qset item chain
  = Done (imap (fun j qs =>
                  ItemLine (item + j)
                    (match qs_data qs with Some _ => true | None => false end))
               chain
          ++ (QuantumLine <$> filter P (seqZ 0 qset))).
Proof.
  induction chain as [| qs next IH]; intros item Hok Hq Hlast HP.
  { simpl. rewrite filter_none; [done |].
    intros s [Hs _]%elem_of_seqZ [q Hget]%HP; [| lia]. done. }
  apply Forall_cons in Hok as [Hqs Hok]. cbn [show_items imap].
  rewrite Nat.add_0_r.
  destruct next as [| qs' next'].
  - specialize (Hlast qs eq_refl).
    destruct (qs_data qs) as [arr |] eqn:Hd; [| done].
    destruct (node_okb_array _ _ _ _ Hqs Hd) as [Hla _].
    rewrite (show_quanta_exact arr P (Z.to_nat qset) 0); [| lia | lia |].
    + rewrite Z2Nat.id by lia. simpl. by rewrite app_nil_r.
    + intros s Hs. rewrite (HP s Hs). unfold get_quantum. simpl. rewrite Hd.
      split.
      * intros [q Hget]. destruct (arr !! Z.to_nat s) as [[q' |] |]; [| done | done].
        by exists q'.
      * intros [q ->]. by exists q.
  - rewrite (IH (S item) Hok Hq).
    + cbn [app].
      assert (imap (fun j qs0 =>
                      ItemLine (S item + j)
                        (match qs_data qs0 with Some _ => true | None => false end))
                   (qs' :: next')
              = imap ((fun j qs0 =>
                         ItemLine (item + j)
                           (match qs_data qs0 with Some _ => true | None => false end))
                      ∘ S) (qs' :: next')) as ->; [| done].
      apply imap_ext. intros j x _. simpl. f_equal. lia.
    + intros qs0 Hl. by apply Hlast.
    + intros s Hs. rewrite (HP s Hs). unfold get_quantum. simpl.
      by rewrite Nat.sub_0_r.
Qed.

(** X12: for a well-formed device whose last node, if there is one, has
    its slot array, scull_proc_seqshow with the lock held returns 0 and
    prints exactly this, in this order: the device line (index, number of
    nodes, [qset], [quantum], [size]); one line for each node of the
    chain, in chain order, saying whether it has a slot array; one quantum
    line for each occupied slot of the last node, in increasing slot
    order.  No line is printed twice and the slots of the other nodes are
    not listed. *)
Theorem seqshow_lists_last_node d index :
  wf_dev d ->
  (forall qs, last (dev_data d) = Some qs -> qs_data qs <> None) ->
  scull_proc_seqshow Acquired index d =
    Done (0,
          DeviceLine (to_int index) (to_long (Z.of_nat (length (dev_data d))))
            (dev_qset d) (dev_quantum d) (to_long (dev_size d))
          :: imap (fun i qs =>
                     ItemLine i
                       (match qs_data qs with Some _ => true | None => false end))
                  (dev_data d)
          ++ (QuantumLine <$>
                filter (fun s =>
                          is_Some (get_quantum (dev_data d)
                                     (length (dev_data d) - 1) (Z.to_nat s)))
                       (seqZ 0 (dev_qset d)))).
Proof.
  intros Hwf Hlast. apply wf_dev_spec in Hwf as ((_ & Hs & _) & _ & Hok).
  unfold scull_proc_seqshow.
  rewrite (show_items_exact (dev_quantum d) (dev_qset d)
             (fun s => is_Some (get_quantum (dev_data d)
                                  (length (dev_data d) - 1) (Z.to_nat s)))
             (dev_data d) 0 Hok (Z.lt_le_incl _ _ Hs) Hlast); [done |].
  intros s _. unfold is_Some. done.
Qed.

Lemma seqshow_lists_last_node_witness :
  wf_dev ex_dev11 /\
  (forall qs, last (dev_data ex_dev11) = Some qs -> qs_data qs <> None) /\
  scull_proc_seqshow Acquired 0 ex_dev11 =
    Done (0,
          DeviceLine 0 2 2 4 11
          :: imap (fun i qs =>
                     ItemLine i
                       (match qs_data qs with Some _ => true | None => false end))
                  (dev_data ex_dev11)
          ++ (QuantumLine <$>
                filter (fun s =>
                          is_Some (get_quantum (dev_data ex_dev11)
                                     (length (dev_data ex_dev11) - 1) (Z.to_nat s)))
                       (seqZ 0 (dev_qset ex_dev11)))).
Proof.
  assert (wf_dev ex_dev11) as H1 by reflexivity.
  assert (forall qs, last (dev_data ex_dev11) = Some qs -> qs_data qs <> None) as H2
    by (intros qs [= <-]; done).
  split; [exact H1 |]. split; [exact H2 |].
  exact (seqshow_lists_last_node ex_dev11 0 H1 H2).
Defined.

(** The listing of that device, run. *)
Example ex_seqshow :
  scull_proc_seqshow Acquired 0 ex_dev11
  = Done (0, [DeviceLine 0 2 2 4 11; ItemLine 0 true; ItemLine 1 true;
              QuantumLine 0]).
Proof. vm_compute. reflexivity. Qed.

Lemma show_items_no_array qset chain : forall item qs,
  last chain = Some qs -> qs_data qs = None -> 0 < qset ->
  show_items qset item chain = Oops.
Proof.
  induction chain as [| qs0 next IH]; intros item qs Hlast Hd Hq; [done |].
  simpl. destruct next as [| qs1 next'].
  - injection Hlast as ->. rewrite Hd.
    destruct (Z.to_nat qset) as [| k] eqn:E; [lia | done].
  - by rewrite (IH (S item) qs Hlast Hd Hq).
Qed.

(** X13: when the last node of the chain has no slot array and [qset] is
    positive, scull_proc_seqshow reads [qs->data[0]] through the [NULL]
    pointer: the listing has no defined outcome.  A read of an empty device
    leaves the chain in that state. *)
Theorem seqshow_null_array d index qs :
  last (dev_data d) = Some qs -> qs_data qs = None -> 0 < dev_qset d ->
  scull_proc_seqshow Acquired index d = Oops.
Proof.
  intros Hlast Hd Hq. unfold scull_proc_seqshow.
  by rewrite (show_items_no_array _ _ 0 qs Hlast Hd Hq).
Qed.

Lemma seqshow_null_array_witness :
  scull_read Acquired (fresh_dev ex_params) mem_always 16 1 0
  = Done {| r_ret := 0; r_user := []; r_fpos := 0;
            r_dev := set_data (fresh_dev ex_params) [empty_qset];
            r_mem := {| kz_ok := kz_ok mem_always; kz_calls := 1 |} |} /\
  last (dev_data (set_data (fresh_dev ex_params) [empty_qset])) = Some empty_qset /\
  qs_data empty_qset = None /\
  0 < dev_qset (set_data (fresh_dev ex_params) [empty_qset]) /\
  scull_proc_seqshow Acquired 0 (set_data (fresh_dev ex_params) [empty_qset]) = Oops.
Proof.
  split; [vm_compute; reflexivity |].
  assert (0 < dev_qset (set_data (fresh_dev ex_params) [empty_qset])) as H
    by (simpl; lia).
  split; [reflexivity |]. split; [reflexivity |]. split; [exact H |].
  exact (seqshow_null_array (set_data (fresh_dev ex_params) [empty_qset]) 0
           empty_qset eq_refl eq_refl H).
Defined.

Lemma seq_visit_from p fuel : forall pos,
  0 <= pos -> scull_num_devs p <= INT_MAX ->
  (Z.to_nat (scull_num_devs p - pos) <= fuel)%nat ->
  seq_visit p fuel (if scull_num_devs p <=? pos then None else Some pos) pos
  = Z.of_nat <$> seq (Z.to_nat pos) (Z.to_nat (scull_num_devs p - pos)).
Proof.
  induction fuel as [| fuel IH]; intros pos Hpos Hmax Hfuel.
  - replace (Z.to_nat (scull_num_devs p - pos)) with 0%nat by lia.
    by destruct (_ <=? _).
  - destruct (Z.leb_spec (scull_num_devs p) pos) as [Hge | Hlt].
    + by replace (Z.to_nat (scull_num_devs p - pos)) with 0%nat by lia.
    + simpl. unfold scull_proc_seqnext.
      rewrite to_long_small by (unfold INT_MAX, LLONG_MAX in *; lia).
      rewrite IH by lia.
      replace (Z.to_nat (scull_num_devs p - pos))
        with (S (Z.to_nat (scull_num_devs p - (pos + 1)))) by lia.
      simpl. rewrite Z2Nat.id by lia. do 3 f_equal. lia.
Qed.

(** X14: the /proc iterator, started at position 0 and advanced until it
    returns [NULL], hands out the indexes 0, 1, ... up to
    [scull_num_devs - 1], each once and in order, and nothing when
    [scull_num_devs] is not positive: it is [scull_num_devs], not the size
    of the table, that bounds the walk. *)
Theorem seq_visits_num_devs p fuel :
  scull_num_devs p <= INT_MAX ->
  (Z.to_nat (scull_num_devs p) <= fuel)%nat ->
  seq_visit p fuel (scull_proc_seqstart p 0) 0
  = Z.of_nat <$> seq 0 (Z.to_nat (scull_num_devs p)).
Proof.
  intros Hmax Hfuel. unfold scull_proc_seqstart.
  rewrite seq_visit_from by lia. by rewrite Z.sub_0_r.
Qed.

Lemma seq_visits_num_devs_witness :
  scull_num_devs (params_with_devs 8) <= INT_MAX /\
  (Z.to_nat (scull_num_devs (params_with_devs 8)) <= 20)%nat /\
  seq_visit (params_with_devs 8) 20 (scull_proc_seqstart (params_with_devs 8) 0) 0
  = [0; 1; 2; 3; 4; 5; 6; 7].
Proof.
  assert (scull_num_devs (params_with_devs 8) <= INT_MAX) as H1
    by (unfold INT_MAX; simpl; lia).
  assert (Z.to_nat (scull_num_devs (params_with_devs 8)) <= 20)%nat as H2
    by (simpl; lia).
  split; [exact H1 |]. split; [exact H2 |].
  exact (seq_visits_num_devs (params_with_devs 8) 20 H1 H2).
Defined.

(** ** Unloading the module *)

Lemma cleanup_loop_wf p k : forall i tbl cdevs,
  (i + k <= length tbl)%nat -> Forall wf_dev tbl ->
  exists cdevs', cleanup_loop p k i tbl cdevs = Done cdevs'.
Proof.
  induction k as [| k IH]; intros i tbl cdevs Hlen Hall; simpl; [by eexists |].
  destruct (lookup_lt_is_Some_2 tbl i) as [d Hd]; [lia |]. rewrite Hd.
  rewrite scull_trim_wf by (rewrite Forall_lookup in Hall; by eapply Hall).
  apply IH; [lia | done].
Qed.

Lemma cleanup_loop_past p k : forall i tbl cdevs,
  (i <= length tbl)%nat -> (length tbl < i + k)%nat -> Forall wf_dev tbl ->
  cleanup_loop p k i tbl cdevs = Oops.
Proof.
  induction k as [| k IH]; intros i tbl cdevs Hi Hlen Hall; simpl; [lia |].
  destruct (tbl !! i) as [d |] eqn:Hd; [| done].
  apply lookup_lt_Some in Hd as Hlt.
  rewrite scull_trim_wf by (rewrite Forall_lookup in Hall; by eapply Hall).
  apply IH; [lia | lia | done].
Qed.

(** X15: scull_cleanup trims [scull_num_devs] entries of the device
    table: with well-formed devices it returns, leaving neither the table
    nor the reserved device numbers, when that count is within the table,
    and it reads past the end of the table when the count is larger, as it
    is for any [scull_num_devs] above 4 after scull_init. *)
Theorem cleanup_walks_num_devs drv tbl :
  drv_devices drv = Some tbl -> Forall wf_dev tbl ->
  ((Z.to_nat (scull_num_devs (drv_params drv)) <= length tbl)%nat ->
   exists drv', scull_cleanup drv = Done drv' /\
     drv_devices drv' = None /\ drv_region drv' = None) /\
  ((length tbl < Z.to_nat (scull_num_devs (drv_params drv)))%nat ->
   scull_cleanup drv = Oops).
Proof.
  intros Htbl Hall. unfold scull_cleanup. rewrite Htbl. split.
  - intros Hin.
    destruct (cleanup_loop_wf (drv_params drv)
                (Z.to_nat (scull_num_devs (drv_params drv))) 0 tbl (drv_cdevs drv))
      as [cdevs' ->]; [simpl; lia | done |].
    by eexists.
  - intros Hout. by rewrite cleanup_loop_past by (simpl; lia || done).
Qed.

Lemma cleanup_walks_num_devs_witness :
  let p := params_with_devs 3 in
  let tbl := replicate 4 (fresh_dev p) in
  let drv := {| drv_params :=
                  {| scull_major := 250; scull_minor := scull_minor p;
                     scull_quantum := scull_quantum p;
                     scull_qset := scull_qset p;
                     scull_num_devs := scull_num_devs p |};
                drv_region := Some (250, 0, 4);
                drv_devices := Some tbl; drv_cdevs := [0; 1; 2; 3] |} in
  scull_init p init_env_ok = Done (0, drv) /\
  drv_devices drv = Some tbl /\
  Forall wf_dev tbl /\
  ((Z.to_nat (scull_num_devs (drv_params drv)) <= length tbl)%nat ->
   exists drv', scull_cleanup drv = Done drv' /\
     drv_devices drv' = None /\ drv_region drv' = None) /\
  ((length tbl < Z.to_nat (scull_num_devs (drv_params drv)))%nat ->
   scull_cleanup drv = Oops).
Proof.
  intros p tbl drv.
  assert (Forall wf_dev tbl) as H by (apply Forall_replicate; reflexivity).
  split; [vm_compute; reflexivity |]. split; [reflexivity |].
  split; [exact H |].
  exact (cleanup_walks_num_devs drv tbl eq_refl H).
Defined.

(** A load that succeeds has added the [cdev]s of the four minors that
    follow [scull_minor], and keeps [scull_num_devs] as it was given. *)
Lemma scull_init_cdevs p e drv :
  scull_init p e = Done (0, drv) ->
  drv_cdevs drv
  = (fun i => scull_minor (drv_params drv) + Z.of_nat i) <$> seq 0 4 /\
  scull_num_devs (drv_params drv) = scull_num_devs p.
Proof.
  unfold scull_init.
  destruct (region_err e =? 0) eqn:Hreg; simpl.
  2: { intros [= H _]. rewrite H in Hreg. discriminate Hreg. }
  destruct (kz_ok (init_mem e) (kz_calls (init_mem e))); simpl;
    [| intros [= H _]; discriminate H].
  destruct (cdev_add_err e 0 =? 0) eqn:H0;
    [destruct (cdev_add_err e 1 =? 0) eqn:H1;
       [destruct (cdev_add_err e 2 =? 0) eqn:H2;
          [destruct (cdev_add_err e 3 =? 0) eqn:H3 |] |] |];
    simpl.
  1: { intros [= <-]. simpl. by destruct (scull_major p =? 0). }
  all: match goal with
       | H : (?x =? 0) = false |- _ =>
           rewrite H; destruct (scull_cleanup _); [| discriminate];
           intros [= E _]; rewrite E in H; discriminate H
       end.
Qed.

Lemma filter_all {A} (f : A -> bool) (l : list A) :
  (forall x, f x = true) -> List.filter f l = l.
Proof.
  intros Hf. induction l as [| a l IH]; cbn [List.filter]; [done |].
  by rewrite Hf, IH.
Qed.

Lemma filter_twice {A} (f g h : A -> bool) (l : list A) :
  (forall x, h x = g x && f x) ->
  List.filter f (List.filter g l) = List.filter h l.
Proof.
  intros Hh. induction l as [| a l IH]; cbn [List.filter]; [done |].
  rewrite Hh. destruct (g a); cbn [andb List.filter]; [destruct (f a) |];
    by rewrite IH.
Qed.

(** The loop deletes the [cdev]s of the minors it walks over, and no other. *)
Lemma cleanup_loop_range p k : forall i tbl cdevs,
  (i + k <= length tbl)%nat ->
  Forall (fun d => dev_data d = []) tbl ->
  cleanup_loop p k i tbl cdevs
  = Done (List.filter
            (fun c => negb ((scull_minor p + Z.of_nat i <=? c)
                            && (c <? scull_minor p + Z.of_nat (i + k))))
            cdevs).
Proof.
  induction k as [| k IH]; intros i tbl cdevs Hlen Hall; cbn [cleanup_loop].
  - f_equal. symmetry. apply filter_all. intros c.
    destruct (Z.leb_spec (scull_minor p + Z.of_nat i) c);
      destruct (Z.ltb_spec c (scull_minor p + Z.of_nat (i + 0))); simpl;
      lia || reflexivity.
  - destruct (lookup_lt_is_Some_2 tbl i) as [d Hd]; [lia |]. rewrite Hd.
    pose proof Hall as Hall'. rewrite Forall_lookup in Hall'.
    pose proof (Hall' _ _ Hd) as Hnil.
    unfold scull_trim. rewrite Hnil. cbn [trim_chain].
    rewrite IH by (lia || done).
    f_equal. unfold cdev_del. apply filter_twice. intros c.
    destruct (Z.eqb_spec c (scull_minor p + Z.of_nat i));
      destruct (Z.leb_spec (scull_minor p + Z.of_nat i) c);
      destruct (Z.ltb_spec c (scull_minor p + Z.of_nat (i + S k)));
      destruct (Z.leb_spec (scull_minor p + Z.of_nat (S i)) c);
      destruct (Z.ltb_spec c (scull_minor p + Z.of_nat (S i + k)));
      simpl; lia || reflexivity.
Qed.

(** X16: after a load that succeeded, scull_cleanup with [scull_num_devs]
    at most 4 returns with the table freed and the device numbers released,
    and has deleted the [cdev]s of the first [scull_num_devs] devices only:
    those of the devices from [scull_num_devs] to 3, which scull_init added,
    are still live. *)
Theorem cleanup_leaves_cdevs p e drv :
  scull_init p e = Done (0, drv) ->
  scull_num_devs p <= 4 ->
  exists drv', scull_cleanup drv = Done drv' /\
    drv_devices drv' = None /\ drv_region drv' = None /\
    drv_cdevs drv'
    = (fun i => scull_minor (drv_params drv) + Z.of_nat i)
      <$> seq (Z.to_nat (scull_num_devs p)) (4 - Z.to_nat (scull_num_devs p)).
Proof.
  intros Hinit Hn.
  pose proof (scull_init_devices p e drv Hinit) as Htbl.
  destruct (scull_init_cdevs p e drv Hinit) as [Hcdevs Hnum].
  unfold scull_cleanup. rewrite Htbl, Hnum.
  rewrite cleanup_loop_range;
    [| rewrite length_replicate; lia | by apply Forall_replicate].
  eexists. split; [reflexivity |]. split; [done |]. split; [done |].
  cbn [drv_cdevs]. rewrite Hcdevs.
  set (m := scull_minor (drv_params drv)).
  assert (Z.to_nat (scull_num_devs p) <= 4)%nat as Hk by lia.
  destruct (Z.to_nat (scull_num_devs p)) as [| [| [| [| [| k]]]]]; [.. | lia];
    cbn [seq fmap list_fmap Nat.sub Nat.add List.filter Z.of_nat];
    repeat match goal with
           | |- context [?a <=? ?b] => destruct (Z.leb_spec a b); try lia
           | |- context [?a <? ?b] => destruct (Z.ltb_spec a b); try lia
           end; reflexivity.
Qed.

Lemma cleanup_leaves_cdevs_witness :
  let p := params_with_devs 2 in
  let drv := {| drv_params :=
                  {| scull_major := 250; scull_minor := scull_minor p;
                     scull_quantum := scull_quantum p;
                     scull_qset := scull_qset p;
                     scull_num_devs := scull_num_devs p |};
                drv_region := Some (250, 0, 4);
                drv_devices := Some (replicate 4 (fresh_dev p));
                drv_cdevs := [0; 1; 2; 3] |} in
  scull_init p init_env_ok = Done (0, drv) /\
  scull_num_devs p <= 4 /\
  exists drv', scull_cleanup drv = Done drv' /\
    drv_devices drv' = None /\ drv_region drv' = None /\
    drv_cdevs drv' = [2; 3].
Proof.
  intros p drv.
  assert (scull_init p init_env_ok = Done (0, drv)) as H1
    by (vm_compute; reflexivity).
  assert (scull_num_devs p <= 4) as H2 by (simpl; lia).
  split; [exact H1 |]. split; [exact H2 |].
  exact (cleanup_leaves_cdevs p init_env_ok drv H1 H2).
Defined.
